(** * ReactorListModal: list aggregation, filter projection and session lifecycle

    A shallow embedding of [src/components/middle/ReactorListModal.tsx]:
    the memoised derivations ([userIds], [allReactions], [canShowFilters]),
    the event handlers and the two effects of the component, followed by the
    properties of the list aggregation and pagination engine. *)

From stdpp Require Import base decidable option strings numbers list sets.

Open Scope string_scope.
Open Scope Z_scope.
Open Scope list_scope.

(** ** Data model *)

(** An entry of [reactors.reactions]: who reacted, and with which reaction. *)
Record ApiUserReaction := mkUserReaction {
  userId : string;
  reaction : string;
}.

(** [message.reactors]: the total count, the entries loaded so far and the
    cursor of the next page ([undefined] once the source is exhausted). *)
Record ApiReactors := mkReactors {
  count : Z;
  reactions : list ApiUserReaction;
  nextOffset : option string;
}.

(** An entry of [message.reactions.results]: the aggregate count of one kind. *)
Record ApiReactionCount := mkReactionCount {
  rc_reaction : string;
  rc_count : Z;
}.

Record ApiReactions := mkReactions {
  results : list ApiReactionCount;
}.

(** The props the component function receives ([OwnProps & StateProps]);
    [animationLevel] only reaches the avatars and is left out. *)
Record Props := mkProps {
  isOpen : bool;
  p_reactors : option ApiReactors;
  p_reactions : option ApiReactions;
  chatId : option string;
  messageId : option Z;
  seenByUserIds : option (list string);
}.

Definition MIN_REACTIONS_COUNT_FOR_FILTERS : Z := 10.

(** ** JavaScript truthiness of the values the component tests *)

(** [if (s)] for [s : string | undefined]: defined and not the empty string. *)
Definition truthy (s : option string) : bool :=
  match s with
  | Some s' => negb (String.eqb s' "")
  | None => false
  end.

(** ** [unique] *)

Section Unique.
Context {A : Type} `{EqDecision A}.

(** Insertion into a collection that keeps one copy of each value, in the
    order in which the values first arrived. *)
Fixpoint collect (held : list A) (l : list A) : list A :=
  match l with
  | [] => []
  | x :: rest =>
      if bool_decide (x ∈ held) then collect held rest
      else x :: collect (x :: held) rest
  end.

(** Modelled from the spec: [unique] of [util/iteratees] is imported by the
    component but is not part of the sources at hand.  The spec describes
    what the component obtains from it: duplicate ids are removed while the
    order of first occurrence is preserved. *)
Definition unique (l : list A) : list A := collect [] l.

(** The reading of the spec sentence as a recursion on the list: the head
    stays, and its later copies are dropped from what the tail keeps. *)
Fixpoint keep_first (l : list A) : list A :=
  match l with
  | [] => []
  | x :: rest => x :: filter (λ y, y ≠ x) (keep_first rest)
  end.

End Unique.

(** ** The memoised derivations of the component *)

(** [allReactions] (lines 101-103). *)
Definition allReactions (reactors : option ApiReactors) : list string :=
  match reactors with
  | Some r => unique (reaction <$> reactions r)
  | None => []
  end.

(** [userIds] (lines 105-110).  With a truthy [chosenTab] the result is the
    optional chain [reactors?.reactions.filter(..).map(..)], which is
    [undefined] when [reactors] is; otherwise it is [unique] of the
    concatenation, the whole chain falling back to [[]] when [reactors] is
    [undefined]. *)
Definition userIds (chosenTab : option string) (reactors : option ApiReactors)
    (seen : option (list string)) : option (list string) :=
  if truthy chosenTab then
    match reactors with
    | Some r =>
        Some (userId <$>
                filter (λ l, Some (reaction l) = chosenTab) (reactions r))
    | None => None
    end
  else
    Some (unique
            (match reactors with
             | Some r => (userId <$> reactions r) ++ default [] seen
             | None => []
             end)).

(** [canShowFilters] (lines 63-64), as the condition of the JSX guard. *)
Definition canShowFilters (reactors : option ApiReactors)
    (reactions : option ApiReactions) : bool :=
  match reactors, reactions with
  | Some r, Some a =>
      bool_decide (MIN_REACTIONS_COUNT_FOR_FILTERS ≤ count r)
      && bool_decide (1 < Z.of_nat (length (results a)))
  | _, _ => false
  end.

(** ** Hook state and the calls the component makes *)

(** [LoadMoreDirection] of [types]; the component names only this member. *)
Inductive LoadMoreDirection := Backwards.

(** What the component asks of its collaborators: the pagination hook's
    [getMore], and the three global actions taken from [getActions()]. *)
Inductive Call :=
  | GetMore (direction : LoadMoreDirection)
  | LoadReactors (chat : option string) (message : option Z)
  | OpenChat (id : string)
  | CloseReactorListModal.

Global Instance LoadMoreDirection_eq_dec : EqDecision LoadMoreDirection.
Proof. solve_decision. Defined.
Global Instance Call_eq_dec : EqDecision Call.
Proof. solve_decision. Defined.

(** The cells the hooks of one mounted instance keep between renders.
    [lifecycleDeps] and [getMoreDeps] hold the dependency values with which
    each of the two effects last ran ([None] before the first render). *)
Record Hooks := mkHooks {
  isClosing : bool;                 (* useFlag(false) *)
  chosenTab : option string;        (* useState(undefined) *)
  chatIdRef : option string;        (* useRef() *)
  pendingFetch : bool;              (* the pagination hook's guard *)
  lifecycleDeps : option (bool * bool);
  getMoreDeps : option (option (option string * option Z));
}.

Definition initialHooks : Hooks :=
  mkHooks false None None false None None.

(** Handlers and effects read and write the cells and log their calls. *)
Definition M (A : Type) : Type := Hooks → A * Hooks * list Call.

Global Instance M_ret : MRet M := λ A x h, (x, h, []).
Global Instance M_bind : MBind M := λ A B f m h,
  let '(x, h1, c1) := m h in
  let '(y, h2, c2) := f x h1 in
  (y, h2, c1 ++ c2).

Definition gets {A} (f : Hooks → A) : M A := λ h, (f h, h, []).
Definition modify (f : Hooks → Hooks) : M unit := λ h, ((), f h, []).
Definition call (c : Call) : M unit := λ h, ((), h, [c]).
Definition skip : M unit := mret ().

Definition exec (m : M unit) (h : Hooks) : Hooks * list Call :=
  let '(_, h', cs) := m h in (h', cs).

(** Modelled from the spec: [useFlag] of [hooks/useFlag] is not part of the
    sources at hand.  It is the boolean cell the spec calls
    [isClosingAnimation], with one setter to true and one to false. *)
Definition startClosing : M unit :=
  modify (λ h, mkHooks true (chosenTab h) (chatIdRef h) (pendingFetch h)
                 (lifecycleDeps h) (getMoreDeps h)).
Definition stopClosing : M unit :=
  modify (λ h, mkHooks false (chosenTab h) (chatIdRef h) (pendingFetch h)
                 (lifecycleDeps h) (getMoreDeps h)).

Definition setChosenTab (tab : option string) : M unit :=
  modify (λ h, mkHooks (isClosing h) tab (chatIdRef h) (pendingFetch h)
                 (lifecycleDeps h) (getMoreDeps h)).
Definition setChatIdRef (id : option string) : M unit :=
  modify (λ h, mkHooks (isClosing h) (chosenTab h) id (pendingFetch h)
                 (lifecycleDeps h) (getMoreDeps h)).
Definition setPendingFetch (b : bool) : M unit :=
  modify (λ h, mkHooks (isClosing h) (chosenTab h) (chatIdRef h) b
                 (lifecycleDeps h) (getMoreDeps h)).
Definition setLifecycleDeps (d : bool * bool) : M unit :=
  modify (λ h, mkHooks (isClosing h) (chosenTab h) (chatIdRef h)
                 (pendingFetch h) (Some d) (getMoreDeps h)).
Definition setGetMoreDeps (d : option (option string * option Z)) : M unit :=
  modify (λ h, mkHooks (isClosing h) (chosenTab h) (chatIdRef h)
                 (pendingFetch h) (lifecycleDeps h) (Some d)).

(** ** Handlers and effects of the component *)

(** The effect of lines 67-76, run with the values of the render it belongs
    to. *)
Definition lifecycleEffect (isOpen isClosing : bool) : M unit :=
  (if isOpen && negb isClosing then setChatIdRef None else skip) ;;
  (if isClosing && negb isOpen
   then stopClosing ;; setChosenTab None
   else skip).

(** [handleCloseAnimationEnd] (lines 78-83). *)
Definition handleCloseAnimationEnd : M unit :=
  target ← gets chatIdRef;
  (match target with
   | Some id => if truthy target then call (OpenChat id) else skip
   | None => skip
   end) ;;
  call CloseReactorListModal.

(** [handleClose] (lines 85-87). *)
Definition handleClose : M unit := startClosing.

(** [handleClick] (lines 89-92). *)
Definition handleClick (userId : string) : M unit :=
  setChatIdRef (Some userId) ;; handleClose.

(** [handleLoadMore] (lines 94-99) and the values its identity depends on
    ([loadReactors] is the same function on every render). *)
Definition handleLoadMore (p : Props) : M unit :=
  call (LoadReactors (chatId p) (messageId p)).
Definition handleLoadMoreDeps (p : Props) : option string * option Z :=
  (chatId p, messageId p).

(** The third argument of [useInfiniteScroll] (line 113), as a condition. *)
Definition sourceExhausted (p : Props) : bool :=
  match p_reactors p with
  | Some r => bool_decide (nextOffset r = None)
  | None => false
  end.

Definition hasMore (p : Props) : bool := negb (sourceExhausted p).

(** What [useInfiniteScroll] returns: the ids to render, the operation
    that asks for more, which may be [undefined] (lines 117 and 164), and
    what the identity of that operation depends on ([None] when there is no
    operation). *)
Record InfiniteScroll := mkInfiniteScroll {
  viewportIds : option (list string);
  getMore : option (LoadMoreDirection → M unit);
  getMoreKey : option (option string * option Z);
}.

(** Modelled from the spec: the [requestMore] operation of the pagination
    controller, which [hooks/useInfiniteScroll] (not part of the sources at
    hand) hands out.  Unless a fetch is already pending it issues the load
    request it was given and marks the fetch pending. *)
Definition requestMore (loadMoreBackwards : M unit)
    (direction : LoadMoreDirection) : M unit :=
  call (GetMore direction) ;;
  pending ← gets pendingFetch;
  if negb pending
  then setPendingFetch true ;; loadMoreBackwards
  else skip.

(** Modelled from the spec: [useInfiniteScroll] of [hooks/useInfiniteScroll]
    is not part of the sources at hand.  The viewport is the projected id
    list it is given.  [requestMore] is invoked only while [hasMore] is
    true, so a disabled hook hands out no operation.  The operation changes
    identity only with the load callback it wraps ([loadMoreDeps]), so that
    re-projecting the id list re-runs no effect and fetches nothing. *)
Definition useInfiniteScroll (loadMoreBackwards : M unit)
    (loadMoreDeps : option string * option Z)
    (listIds : option (list string)) (isDisabled : bool) : InfiniteScroll :=
  if isDisabled then mkInfiniteScroll listIds None None
  else mkInfiniteScroll listIds (Some (requestMore loadMoreBackwards))
         (Some loadMoreDeps).

(** The call of lines 112-114, for the props and the chosen tab of a
    render. *)
Definition infiniteScroll (p : Props) (tab : option string) : InfiniteScroll :=
  useInfiniteScroll (handleLoadMore p) (handleLoadMoreDeps p)
    (userIds tab (p_reactors p) (seenByUserIds p)) (sourceExhausted p).

(** The effect of lines 116-118. *)
Definition initialGetMoreEffect
    (getMore : option (LoadMoreDirection → M unit)) : M unit :=
  match getMore with
  | Some g => g Backwards
  | None => skip
  end.

(** Modelled from the spec: [InfiniteScroll] of [ui/InfiniteScroll] is not
    part of the sources at hand.  When the scroll position nears the trailing
    edge of the rendered ids it calls the [onLoadMore] it was given (line
    164), asking for the backward direction. *)
Definition onScrollNearEnd
    (onLoadMore : option (LoadMoreDirection → M unit)) : M unit :=
  match onLoadMore with
  | Some g => g Backwards
  | None => skip
  end.

(** One render followed by the effects whose dependencies differ from those
    of their last run. *)
Definition renderPass (p : Props) : M unit :=
  closing ← gets isClosing;
  tab ← gets chosenTab;
  let scroll := infiniteScroll p tab in
  ranWith ← gets lifecycleDeps;
  (if bool_decide (ranWith = Some (closing, isOpen p)) then skip
   else setLifecycleDeps (closing, isOpen p) ;;
        lifecycleEffect (isOpen p) closing) ;;
  calledWith ← gets getMoreDeps;
  (if bool_decide (calledWith = Some (getMoreKey scroll)) then skip
   else setGetMoreDeps (getMoreKey scroll) ;;
        initialGetMoreEffect (getMore scroll)).

(** State set by an effect causes one more render; nothing changes after
    the second (see [commit_settled_noop]). *)
Definition commit (p : Props) : M unit := renderPass p ;; renderPass p.

(** ** Events *)

Inductive Event :=
  | PropsChanged (p : Props)        (* the store hands the component new props *)
  | FetchSettled                    (* the outstanding load request ended *)
  | ScrollNearEnd                   (* InfiniteScroll's onLoadMore *)
  | SelectFilter (tab : option string)  (* onClick of a filter button *)
  | ClickEntry (userId : string)    (* onClick of a list item *)
  | RequestClose                    (* Modal's onClose, the Close button *)
  | CloseAnimationEnd.              (* Modal's onCloseAnimationEnd *)

Definition State : Type := Props * Hooks.

Definition handler (p : Props) (e : Event) : M unit :=
  match e with
  | PropsChanged _ => skip
  | FetchSettled => setPendingFetch false
  | ScrollNearEnd =>
      tab ← gets chosenTab;
      onScrollNearEnd (getMore (infiniteScroll p tab))
  | SelectFilter tab => setChosenTab tab
  | ClickEntry userId => handleClick userId
  | RequestClose => handleClose
  | CloseAnimationEnd => handleCloseAnimationEnd
  end.

(** The props a step renders with. *)
Definition propsAfter (e : Event) (p : Props) : Props :=
  match e with
  | PropsChanged p' => p'
  | _ => p
  end.

(** An event is handled with the closures of the last render, and the
    renders and effects it causes follow at once. *)
Definition step (e : Event) (st : State) : State * list Call :=
  let p := propsAfter e st.1 in
  let '(h, cs) := exec (handler st.1 e ;; commit p) st.2 in
  ((p, h), cs).

Fixpoint run (es : list Event) (st : State) : State * list Call :=
  match es with
  | [] => (st, [])
  | e :: rest =>
      let '(st1, cs1) := step e st in
      let '(st2, cs2) := run rest st1 in
      (st2, cs1 ++ cs2)
  end.

(** First mount: the hooks start from their initial values. *)
Definition mount (p : Props) : State * list Call :=
  let '(h, cs) := exec (commit p) initialHooks in ((p, h), cs).

(** ** The filter buttons of the rendered output *)

(** One [Button] of the filter row (lines 128-157): whether it carries the
    [chosen] class and the number shown next to its icon. *)
Inductive FilterButton :=
  | AllButton (chosen : bool) (shown : option Z)
  | ReactionButton (reaction : string) (chosen : bool) (shown : option Z).

(** The argument the button's [onClick] passes to [setChosenTab]. *)
Definition onClickTab (b : FilterButton) : option string :=
  match b with
  | AllButton _ _ => None
  | ReactionButton reaction _ _ => Some reaction
  end.

(** [reactions?.results.find((l) => l.reaction === reaction)?.count]
    (line 141). *)
Definition aggregateCount (reactions : option ApiReactions)
    (reaction : string) : option Z :=
  match reactions with
  | Some a =>
      match list_find (λ l, rc_reaction l = reaction) (results a) with
      | Some found => Some (rc_count found.2)
      | None => None
      end
  | None => None
  end.

Definition reactionButton (p : Props) (h : Hooks) (reaction : string)
    : FilterButton :=
  ReactionButton reaction (bool_decide (chosenTab h = Some reaction))
    (aggregateCount (p_reactions p) reaction).

Definition filterButtons (p : Props) (h : Hooks) : list FilterButton :=
  if canShowFilters (p_reactors p) (p_reactions p) then
    AllButton (negb (truthy (chosenTab h))) (count <$> p_reactors p)
    :: (reactionButton p h <$> allReactions (p_reactors p))
  else [].

(** An event can only come from something that is on the screen: a filter
    selection needs a button whose [onClick] makes it.  The other events are
    not constrained here. *)
Definition enabled (st : State) (e : Event) : Prop :=
  match e with
  | SelectFilter tab => tab ∈ (onClickTab <$> filterButtons st.1 st.2)
  | _ => True
  end.

(** The entries held, if any. *)
Definition loadedEntries (reactors : option ApiReactors) : list ApiUserReaction :=
  match reactors with
  | Some r => reactions r
  | None => []
  end.

(** The kinds of the aggregate per-kind counts, if any. *)
Definition aggregateKinds (reactions : option ApiReactions) : list string :=
  match reactions with
  | Some a => rc_reaction <$> results a
  | None => []
  end.

Global Instance ApiUserReaction_eq_dec : EqDecision ApiUserReaction.
Proof. solve_decision. Defined.

(** The filtered view as the spec words it: the ids of the candidate list
    that have an entry of the chosen kind, in the candidate list's order. *)
Definition candidateProjection (tab : string) (r : ApiReactors)
    (seen : option (list string)) : list string :=
  filter (λ u, mkUserReaction u tab ∈ reactions r)
    (unique ((userId <$> reactions r) ++ default [] seen)).

(** ** The scenario of the spec *)

Definition U1 : string := "U1".
Definition U2 : string := "U2".
Definition U3 : string := "U3".
Definition heart : string := "❤".
Definition thumbsUp : string := "👍".

Definition scenarioReactors : ApiReactors :=
  mkReactors 3
    [mkUserReaction U1 heart; mkUserReaction U2 thumbsUp;
     mkUserReaction U1 thumbsUp]
    None.

Definition scenarioSeen : option (list string) := Some [U3].

(** The props of the overlay session used in the examples: the message of
    chat [c1] with one page of reactors and more to come. *)
Definition firstPage : ApiReactors :=
  mkReactors 12 [mkUserReaction U1 thumbsUp; mkUserReaction U2 heart]
    (Some "page2").

Definition sessionProps (open : bool) (reactors : option ApiReactors) : Props :=
  mkProps open reactors
    (Some (mkReactions [mkReactionCount thumbsUp 7; mkReactionCount heart 5]))
    (Some "c1") (Some 42) (Some [U3]).

(** The same reactors as the last page, and a first page on which only one
    of the two kinds has arrived. *)
Definition lastPage : ApiReactors :=
  mkReactors 12 [mkUserReaction U1 thumbsUp; mkUserReaction U2 heart] None.

Definition thumbsOnlyPage : ApiReactors :=
  mkReactors 12 [mkUserReaction U1 thumbsUp] (Some "page2").

(** ** What a commit amounts to *)

Section Commit.
Variables (p : Props) (h : Hooks).

(** The identity of the [getMore] a render with [p] obtains. *)
Definition getMoreKeyOf : option (option string * option Z) :=
  if sourceExhausted p then None else Some (handleLoadMoreDeps p).

(** Whether each effect has to run: its dependencies differ from those of
    its last run. *)
Definition lifecycleDue : bool :=
  negb (bool_decide (lifecycleDeps h = Some (isClosing h, isOpen p))).
Definition getMoreDue : bool :=
  negb (bool_decide (getMoreDeps h = Some getMoreKeyOf)).

Definition closeFinished : bool :=
  lifecycleDue && isClosing h && negb (isOpen p).
Definition fetchStarts : bool :=
  getMoreDue && hasMore p && negb (pendingFetch h).

Definition committedHooks : Hooks :=
  let closing := if closeFinished then false else isClosing h in
  mkHooks closing
    (if closeFinished then None else chosenTab h)
    (if lifecycleDue && isOpen p && negb (isClosing h) then None
     else chatIdRef h)
    (if fetchStarts then true else pendingFetch h)
    (Some (closing, isOpen p))
    (Some getMoreKeyOf).

Definition committedCalls : list Call :=
  if getMoreDue && hasMore p then
    GetMore Backwards
    :: (if pendingFetch h then []
        else [LoadReactors (chatId p) (messageId p)])
  else [].

End Commit.

Ltac unfold_hooks :=
  unfold handler, commit, renderPass, lifecycleEffect, initialGetMoreEffect,
    onScrollNearEnd, infiniteScroll, useInfiniteScroll, requestMore,
    handleCloseAnimationEnd,
    handleClick, handleClose, handleLoadMore, startClosing, stopClosing,
    setChosenTab, setChatIdRef, setPendingFetch, setLifecycleDeps,
    setGetMoreDeps, skip, gets, modify, call, exec, mbind, mret, M_bind,
    M_ret in *.

(** ** Reachable states *)

(** The states a mounted instance can be in. *)
Inductive reachable : State → Prop :=
  | reachable_mount (p : Props) : reachable (mount p).1
  | reachable_step (e : Event) (st : State) :
      reachable st → reachable (step e st).1.

(** What the component passes to [Modal] as [isOpen] (line 122). *)
Definition overlayOpen (st : State) : bool :=
  isOpen st.1 && negb (isClosing st.2).

(** Both effects have run with the values of the last render, and an open
    overlay holds no navigation target. *)
Definition settled (st : State) : Prop :=
  lifecycleDeps st.2 = Some (isClosing st.2, isOpen st.1)
  ∧ getMoreDeps st.2 = Some (getMoreKeyOf st.1)
  ∧ (overlayOpen st = true → chatIdRef st.2 = None).

(** ** Predicates on events, calls and traces *)



Definition isLoadReactors (c : Call) : Prop :=
  match c with
  | LoadReactors _ _ => True
  | _ => False
  end.

(** The props an event brings, if any, still say the source is exhausted. *)
Definition staysExhausted (e : Event) : Prop :=
  match e with
  | PropsChanged p => sourceExhausted p = true
  | _ => True
  end.

(** The filter row is hidden before every event of the trace, and every
    event is one the screen allows. *)
Fixpoint hiddenAlong (es : list Event) (st : State) : Prop :=
  match es with
  | [] => True
  | e :: rest =>
      canShowFilters (p_reactors st.1) (p_reactions st.1) = false
      ∧ enabled st e
      ∧ hiddenAlong rest (step e st).1
  end.

Definition isSelect (e : Event) : Prop :=
  match e with
  | SelectFilter _ => True
  | _ => False
  end.

(** The number of distinct kinds among the aggregate counts. *)
Definition distinctKinds (a : ApiReactions) : nat :=
  length (unique (rc_reaction <$> results a)).

(** ** The list of the rendered output *)

(** [if (n)] for [n : number | undefined]: defined and not zero. *)
Definition truthyNumber (n : option Z) : bool :=
  match n with
  | Some n' => negb (n' =? 0)
  | None => false
  end.

Section List.
(** The user records of the global store; their type is declared outside
    the component, which only hands them on to [Avatar] and
    [FullNameTitle]. *)
Context {ApiUser : Type}.
Variable usersById : string → option ApiUser.

(** One [ListItem] (lines 173-182): its key, the user handed to the avatar
    and the title, the id its [onClick] passes to [handleClick], and the
    reaction of the emoji, which is rendered only for a truthy reaction. *)
Record ListItem := mkListItem {
  item_key : string;
  item_user : option ApiUser;
  item_onClick : string;
  item_emoji : option string;
}.

Definition listItem (user : string) (r : ApiUserReaction) : ListItem :=
  mkListItem (user +:+ "-" +:+ reaction r) (usersById user) user
    (if truthy (Some (reaction r)) then Some (reaction r) else None).

(** [userReactions] (line 169). *)
Definition userReactions (reactors : option ApiReactors) (user : string)
    : option (list ApiUserReaction) :=
  match reactors with
  | Some r => Some (filter (λ l, userId l = user) (reactions r))
  | None => None
  end.

(** The callback of [flatMap] (lines 167-186): the items of one user. *)
Definition userItems (reactors : option ApiReactors) (user : string)
    : list ListItem :=
  match userReactions reactors user with
  | Some rs => listItem user <$> rs
  | None => []
  end.

(** What is rendered below the filter row (lines 160-189). *)
Inductive ListBody :=
  | Loading
  | Scroll (items : list string) (children : list ListItem).

Definition listBody (viewportIds : option (list string))
    (reactors : option ApiReactors) : ListBody :=
  match viewportIds with
  | Some ids =>
      if bool_decide (length ids ≠ 0%nat)
      then Scroll ids (ids ≫= userItems reactors)
      else Loading
  | None => Loading
  end.
End List.

(** The entries of [user] among those held. *)
Definition entriesOf (reactors : option ApiReactors) (user : string)
    : list ApiUserReaction :=
  filter (λ l, userId l = user) (loadedEntries reactors).

(** ** The props taken from the global store *)

(** The part of a message the component picks (line 36). *)
Record ApiMessage := mkMessage {
  m_reactors : option ApiReactors;
  m_reactions : option ApiReactions;
  m_seenByUserIds : option (list string);
}.

(** [global.reactorModal]; both fields are read as optional (line 204). *)
Record ReactorModal := mkReactorModal {
  rm_chatId : option string;
  rm_messageId : option Z;
}.

Section WithGlobal.
(** [selectChatMessage] applied to the global state; the selector is
    declared outside the component. *)
Variable selectChatMessage : string → Z → option ApiMessage.

(** The function given to [withGlobal] (lines 203-215), together with the
    own prop [isOpen]. *)
Definition mapStateToProps (reactorModal : option ReactorModal)
    (ownIsOpen : bool) : Props :=
  let chat := reactorModal ≫= rm_chatId in
  let msg := reactorModal ≫= rm_messageId in
  let message :=
    match chat, msg with
    | Some c, Some m =>
        if truthy chat && truthyNumber msg then selectChatMessage c m
        else None
    | _, _ => None
    end in
  mkProps ownIsOpen (message ≫= m_reactors) (message ≫= m_reactions)
    chat msg (message ≫= m_seenByUserIds).
End WithGlobal.

(** Whether a filter button carries the [chosen] class. *)
Definition isChosen (b : FilterButton) : Prop :=
  match b with
  | AllButton chosen _ => chosen = true
  | ReactionButton _ chosen _ => chosen = true
  end.

Global Instance isChosen_dec (b : FilterButton) : Decision (isChosen b).
Proof. destruct b; simpl; apply _. Defined.

(** The events that start the closing: the close controls and a click on an
    entry. *)
Definition startsClosing (e : Event) : Prop :=
  match e with
  | RequestClose | ClickEntry _ => True
  | _ => False
  end.

(** The character that separates user and reaction in an item's key. *)
Definition hyphen : Ascii.ascii := Ascii.ascii_of_nat 45.

(** No hyphen occurs in the string. *)
Fixpoint hyphenFree (s : string) : Prop :=
  match s with
  | EmptyString => True
  | String a rest => a ≠ hyphen ∧ hyphenFree rest
  end.

(** A store without user records, for the examples. *)
Definition noUsers : string → option unit := λ _, None.

(** The calls [handleCloseAnimationEnd] makes before closing: it opens the
    chat of the recorded target if there is one. *)
Definition navigation (h : Hooks) : list Call :=
  match chatIdRef h with
  | Some id => if truthy (Some id) then [OpenChat id] else []
  | None => []
  end.

(** * Properties *)

(** ** Facts about [unique] *)

Section UniqueFacts.
Context {A : Type} `{EqDecision A}.
Implicit Types (l held : list A) (x : A).

Lemma collect_elem held l x : x ∈ collect held l ↔ x ∈ l ∧ x ∉ held.
Proof.
  revert held. induction l as [|y l IH]; intros held; simpl.
  - set_solver.
  - case_bool_decide as Hy.
    + rewrite IH. set_solver.
    + rewrite elem_of_cons, IH. destruct (decide (x = y)); set_solver.
Qed.

Lemma collect_NoDup held l : NoDup (collect held l).
Proof.
  revert held. induction l as [|y l IH]; intros held; simpl.
  - constructor.
  - case_bool_decide; [apply IH|].
    constructor; [|apply IH]. rewrite collect_elem. set_solver.
Qed.

Lemma collect_filter held l :
  collect held l = filter (λ y, y ∉ held) (collect [] l).
Proof.
  revert held. induction l as [|y l IH]; intros held; simpl; [done|].
  rewrite filter_cons. rewrite (IH [y]), (IH (y :: held)), (IH held).
  case_bool_decide as Hy.
  - rewrite decide_False by tauto. rewrite list_filter_filter.
    apply list_filter_iff. set_solver.
  - rewrite decide_True by done. f_equal.
    rewrite list_filter_filter. apply list_filter_iff. set_solver.
Qed.

Lemma unique_cons x l : unique (x :: l) = x :: filter (λ y, y ≠ x) (unique l).
Proof.
  unfold unique. simpl.
  f_equal. rewrite collect_filter. apply list_filter_iff. set_solver.
Qed.

Lemma unique_keep_first l : unique l = keep_first l.
Proof.
  induction l as [|x l IH]; [done|]. rewrite unique_cons, IH. done.
Qed.

Lemma unique_elem l x : x ∈ unique l ↔ x ∈ l.
Proof. unfold unique. rewrite collect_elem. set_solver. Qed.

Lemma unique_NoDup l : NoDup (unique l).
Proof. apply collect_NoDup. Qed.

Lemma collect_app held l1 l2 :
  collect held (l1 ++ l2) = collect held l1 ++ collect (l1 ++ held) l2.
Proof.
  revert held. induction l1 as [|y l1 IH]; intros held; simpl; [done|].
  assert (Hswap : ∀ h, collect (l1 ++ y :: h) l2 = collect (y :: l1 ++ h) l2).
  { intros h. rewrite (collect_filter (l1 ++ y :: h)).
    rewrite (collect_filter (y :: l1 ++ h)).
    apply list_filter_iff. set_solver. }
  case_bool_decide as Hy.
  - rewrite IH. f_equal. rewrite <- Hswap.
    rewrite (collect_filter (l1 ++ held)), (collect_filter (l1 ++ y :: held)).
    apply list_filter_iff. set_solver.
  - rewrite IH. simpl. do 2 f_equal. apply Hswap.
Qed.

(** The values of [l1] come first; of [l2] only what [l1] lacks follows. *)
Lemma unique_app l1 l2 :
  unique (l1 ++ l2) = unique l1 ++ filter (λ y, y ∉ l1) (unique l2).
Proof.
  unfold unique. rewrite collect_app, app_nil_r.
  by rewrite (collect_filter l1).
Qed.

Lemma unique_sublist l : sublist (unique l) l.
Proof.
  induction l as [|x l IH]; [done|]. rewrite unique_cons.
  apply sublist_skip. etrans; [apply sublist_filter|done].
Qed.

Lemma filter_all (P : A → Prop) `{!∀ y, Decision (P y)} l :
  Forall P l → filter P l = l.
Proof.
  induction 1 as [|y l Hy _ IH]; [done|].
  by rewrite filter_cons_True, IH.
Qed.

(** A list without duplicates is left as it is. *)
Lemma unique_NoDup_id l : NoDup l → unique l = l.
Proof.
  induction 1 as [|x l Hx _ IH]; [done|]. rewrite unique_cons, IH.
  f_equal. apply filter_all, Forall_forall. intros y Hy.
  by intros ->.
Qed.
End UniqueFacts.

(** ** The candidate list and its filtered projection *)

Lemma userIds_filtered (tab : string) (r : ApiReactors) seen :
  truthy (Some tab) = true →
  userIds (Some tab) (Some r) seen
  = Some (userId <$> filter (λ l, reaction l = tab) (reactions r)).
Proof.
  intros Hset. unfold userIds. rewrite Hset. do 2 f_equal.
  apply list_filter_iff. intros l. split; congruence.
Qed.

Lemma elem_of_filtered (tab : string) (entries : list ApiUserReaction) u :
  u ∈ (userId <$> filter (λ l, reaction l = tab) entries)
  ↔ mkUserReaction u tab ∈ entries.
Proof.
  rewrite list_elem_of_fmap. split.
  - intros ([u' k] & -> & [Hk Hl]%list_elem_of_filter). simpl in *. by subst.
  - intros Hin. exists (mkUserReaction u tab). split; [done|].
    by apply list_elem_of_filter.
Qed.

(** C2. Without a chosen tab, [userIds] is the user ids of the entries in
    source order followed by the seen ids, each id kept where it first
    occurs: the list has no duplicates, the same members as the
    concatenation, the reactors' ids before the seen-only ids, and it is the
    one result every call on these inputs gives. *)
Theorem candidate_list_dedup_first_occurrence
    (r : ApiReactors) (seen : option (list string)) :
  let ids := (userId <$> reactions r) ++ default [] seen in
  ∃ candidates,
    userIds None (Some r) seen = Some candidates
    ∧ candidates = keep_first ids
    ∧ NoDup candidates
    ∧ (∀ u, u ∈ candidates ↔ u ∈ ids)
    ∧ sublist candidates ids
    ∧ candidates
      = unique (userId <$> reactions r)
        ++ filter (λ u, u ∉ (userId <$> reactions r)) (unique (default [] seen))
    ∧ (∀ again, userIds None (Some r) seen = Some again → again = candidates).
Proof.
  intros ids. exists (unique ids).
  split; [reflexivity|]. split; [apply unique_keep_first|].
  split; [apply unique_NoDup|]. split; [intros u; apply unique_elem|].
  split; [apply unique_sublist|]. split; [apply unique_app|].
  intros again Hagain.
  change (Some (unique ids) = Some again) in Hagain. by injection Hagain.
Qed.

(** The scenario of the spec without a chosen tab: [U1] once, in the place
    of its first entry, and the seen-only [U3] last. *)
Example candidate_list_scenario :
  userIds None (Some scenarioReactors) scenarioSeen = Some [U1; U2; U3].
Proof. reflexivity. Qed.

(** C1 (as the code has it). With a chosen tab and reactor data, [userIds]
    is the user id of every entry of the chosen kind, in the entries' order:
    a subsequence of the entries' ids with the same members as the candidate
    list's ids of that kind, and a rearrangement of them when no id repeats.
    In the scenario of the spec it is [U2; U1]. *)
Theorem filtered_projection_entry_order
    (tab : string) (r : ApiReactors) (seen : option (list string)) :
  truthy (Some tab) = true →
  ∃ projected,
    userIds (Some tab) (Some r) seen = Some projected
    ∧ projected = userId <$> filter (λ l, reaction l = tab) (reactions r)
    ∧ sublist projected (userId <$> reactions r)
    ∧ (∀ u, u ∈ projected ↔ u ∈ candidateProjection tab r seen)
    ∧ (NoDup projected → projected ≡ₚ candidateProjection tab r seen).
Proof.
  intros Hset. eexists. split; [by apply userIds_filtered|].
  assert (Hmem : ∀ u,
    u ∈ (userId <$> filter (λ l, reaction l = tab) (reactions r))
    ↔ u ∈ candidateProjection tab r seen).
  { intros u. rewrite elem_of_filtered. unfold candidateProjection.
    rewrite list_elem_of_filter, unique_elem, elem_of_app. split.
    - intros Hin. split; [done|]. left.
      by apply (list_elem_of_fmap_2 userId) in Hin.
    - tauto. }
  repeat split.
  - apply fmap_sublist, sublist_filter.
  - by intros ?%Hmem.
  - by intros ?%Hmem.
  - intros Hnd. apply NoDup_Permutation; [done| |done].
    unfold candidateProjection. apply NoDup_filter, unique_NoDup.
Qed.

Lemma filtered_projection_entry_order_scenario :
  truthy (Some thumbsUp) = true
  ∧ ∃ projected,
      userIds (Some thumbsUp) (Some scenarioReactors) scenarioSeen
      = Some projected
      ∧ projected = [U2; U1].
Proof.
  split; [reflexivity|].
  destruct (filtered_projection_entry_order thumbsUp scenarioReactors
              scenarioSeen eq_refl) as (projected & Hcall & Hval & _).
  exists projected. split; [exact Hcall|]. rewrite Hval. reflexivity.
Defined.

(** C1 (as the spec states it) fails: in the spec's own scenario the code
    yields [U2; U1], which is neither the [U1; U2] the spec names nor the
    candidate list's order. *)
Lemma filtered_projection_not_candidate_order :
  candidateProjection thumbsUp scenarioReactors scenarioSeen = [U1; U2]
  ∧ userIds (Some thumbsUp) (Some scenarioReactors) scenarioSeen
    = Some [U2; U1]
  ∧ userIds (Some thumbsUp) (Some scenarioReactors) scenarioSeen
    ≠ Some [U1; U2]
  ∧ userIds (Some thumbsUp) (Some scenarioReactors) scenarioSeen
    ≠ Some (candidateProjection thumbsUp scenarioReactors scenarioSeen).
Proof. repeat split; discriminate. Qed.

(** C4. An id that is in the seen-set but in no reaction entry is not in
    the output of [userIds] under any chosen tab. *)
Theorem seen_only_excluded_when_filtered
    (tab : option string) (reactors : option ApiReactors)
    (seen : list string) (u : string) :
  truthy tab = true →
  u ∈ seen →
  u ∉ (userId <$> loadedEntries reactors) →
  u ∉ default [] (userIds tab reactors (Some seen)).
Proof.
  intros Hset _ Hnone. unfold userIds. rewrite Hset.
  destruct reactors as [r|]; simpl in *; [|apply not_elem_of_nil].
  intros (l & -> & [_ Hl]%list_elem_of_filter)%list_elem_of_fmap.
  apply Hnone. by apply list_elem_of_fmap_2.
Qed.

Lemma seen_only_excluded_when_filtered_scenario :
  truthy (Some thumbsUp) = true
  ∧ U3 ∈ [U3]
  ∧ (U3 ∉ userId <$> loadedEntries (Some scenarioReactors))
  ∧ U3 ∉ default [] (userIds (Some thumbsUp) (Some scenarioReactors)
                       (Some [U3])).
Proof.
  assert (Hset : truthy (Some thumbsUp) = true) by reflexivity.
  assert (Hseen : U3 ∈ [U3]) by (apply list_elem_of_here).
  assert (Hnone : U3 ∉ (userId <$> loadedEntries (Some scenarioReactors))).
  { apply (bool_decide_unpack _). vm_compute. exact I. }
  split; [exact Hset|]. split; [exact Hseen|]. split; [exact Hnone|].
  exact (seen_only_excluded_when_filtered (Some thumbsUp)
           (Some scenarioReactors) [U3] U3 Hset Hseen Hnone).
Defined.

(** C9. While [reactors] is absent the unfiltered [userIds] is empty
    whatever the seen-set holds, because the optional chain drops the
    concatenation; with [reactors] present every seen id is in it. *)
Theorem seen_ids_need_reactors (seen : option (list string)) :
  userIds None None seen = Some []
  ∧ ∀ r, ∃ candidates,
      userIds None (Some r) seen = Some candidates
      ∧ default [] seen ⊆ candidates.
Proof.
  split; [reflexivity|]. intros r. eexists. split; [reflexivity|].
  intros u Hu. apply unique_elem, elem_of_app. by right.
Qed.

Example seen_ids_wait_for_reactors :
  userIds None None scenarioSeen = Some []
  ∧ userIds None (Some (mkReactors 0 [] None)) scenarioSeen = Some [U3].
Proof. split; reflexivity. Qed.

(** ** Renders and effects *)

Lemma exec_commit (p : Props) (h : Hooks) :
  exec (commit p) h = (committedHooks p h, committedCalls p h).
Proof.
  unfold committedHooks, committedCalls, closeFinished, fetchStarts,
    lifecycleDue, getMoreDue, getMoreKeyOf, hasMore.
  destruct h as [closing tab ref pending ldeps gdeps].
  unfold_hooks. simpl.
  destruct (isOpen p), closing, pending, (sourceExhausted p);
    repeat (case_bool_decide; simplify_eq/=); try done.
Qed.

Lemma exec_bind (m k : M unit) (h : Hooks) :
  exec (m ;; k) h
  = ((exec k (exec m h).1).1, (exec m h).2 ++ (exec k (exec m h).1).2).
Proof.
  unfold exec, mbind, M_bind.
  destruct (m h) as [[[] h1] c1]. simpl.
  by destruct (k h1) as [[[] h2] c2].
Qed.

Lemma step_unfold (e : Event) (p : Props) (h : Hooks) :
  step e (p, h)
  = let handled := exec (handler p e) h in
    ((propsAfter e p, committedHooks (propsAfter e p) handled.1),
     handled.2 ++ committedCalls (propsAfter e p) handled.1).
Proof.
  unfold step. cbn [fst snd]. rewrite exec_bind, exec_commit. done.
Qed.

Lemma mount_unfold (p : Props) :
  mount p = ((p, committedHooks p initialHooks), committedCalls p initialHooks).
Proof. unfold mount. by rewrite exec_commit. Qed.

Lemma run_cons (e : Event) (es : list Event) (st : State) :
  run (e :: es) st
  = ((run es (step e st).1).1, (step e st).2 ++ (run es (step e st).1).2).
Proof.
  simpl. destruct (step e st) as [st1 c1]. cbn [fst snd].
  destruct (run es st1) as [st2 c2]. reflexivity.
Qed.

(** ** Invariants of a mounted instance *)

Lemma committed_settled (p : Props) (h : Hooks) :
  (lifecycleDeps h = Some (isClosing h, isOpen p) →
   isOpen p = true → isClosing h = false → chatIdRef h = None) →
  settled (p, committedHooks p h).
Proof.
  intros Hpre. unfold settled, overlayOpen, committedHooks, closeFinished,
    lifecycleDue. simpl.
  split; [done|]. split; [done|].
  destruct (isOpen p), (isClosing h); simpl; try done;
    case_bool_decide; simpl; intros; simplify_eq/=; auto.
Qed.

Lemma mount_settled (p : Props) : settled (mount p).1.
Proof. rewrite mount_unfold. apply committed_settled. done. Qed.

Lemma step_settled (e : Event) (st : State) :
  settled st → settled (step e st).1.
Proof.
  destruct st as [p h]. intros (Hl & Hg & Href).
  rewrite step_unfold. cbn [fst snd]. apply committed_settled.
  unfold overlayOpen in Href. simpl in Hl, Hg, Href.
  destruct h as [closing tab ref pending ldeps gdeps]. simpl in *.
  assert (Hnone : isOpen p = true → closing = false → ref = None).
  { intros Ho ->. apply Href. by rewrite Ho. }
  destruct e; unfold_hooks; simpl; intros Heq Hopen Hclosing;
    simplify_eq/=; try done; try (apply Hnone; congruence).
  - destruct pending, (sourceExhausted p); simpl in *; apply Hnone; congruence.
  - destruct ref as [id|]; [destruct (truthy (Some id))|]; simpl in *;
      apply Hnone; congruence.
Qed.

Lemma reachable_settled (st : State) : reachable st → settled st.
Proof.
  induction 1 as [p|e st _ IH]; [apply mount_settled|by apply step_settled].
Qed.


(** Once settled, rendering again runs no effect and changes nothing. *)
Lemma commit_settled_noop (p : Props) (h : Hooks) :
  settled (p, h) → exec (commit p) h = (h, []).
Proof.
  intros (Hl & Hg & _). simpl in Hl, Hg. rewrite exec_commit.
  unfold committedHooks, committedCalls, closeFinished, fetchStarts,
    lifecycleDue, getMoreDue.
  rewrite !bool_decide_eq_true_2 by done. simpl.
  destruct h. simpl in *. by rewrite Hl, Hg.
Qed.

(** ** The session lifecycle *)




(** A click on an entry of an open overlay records the entry's user and
    starts the closing; the overlay is no longer open. *)
Lemma click_starts_closing (st : State) (u : string) :
  settled st →
  overlayOpen st = true →
  let clicked := (step (ClickEntry u) st).1 in
  chatIdRef clicked.2 = Some u
  ∧ isClosing clicked.2 = true
  ∧ overlayOpen clicked = false.
Proof.
  destruct st as [p h]. intros (Hl & _ & _) Hopen. simpl in Hl.
  unfold overlayOpen in *. simpl in Hopen.
  apply andb_true_iff in Hopen as [Ho Hc%negb_true_iff].
  rewrite step_unfold. cbn [fst snd propsAfter].
  destruct h as [closing tab ref pending ldeps gdeps]. simpl in *. subst.
  unfold_hooks. unfold committedHooks, closeFinished, lifecycleDue. simpl.
  rewrite Ho. simpl. done.
Qed.



(** When the animation ends without the overlay having been open again, the
    chat of the clicked user is opened; props that merely repeat
    [isOpen = true] during the animation do not reopen the overlay. *)
Example navigation_when_animation_ends :
  (run [ClickEntry U2; PropsChanged (sessionProps true (Some firstPage));
        CloseAnimationEnd]
     (mount (sessionProps true (Some firstPage))).1).2
  = [OpenChat U2; CloseReactorListModal].
Proof. reflexivity. Qed.

(** ** Pagination *)

Lemma step_exhausted (e : Event) (st : State) :
  sourceExhausted st.1 = true →
  staysExhausted e →
  sourceExhausted (step e st).1.1 = true
  ∧ Forall (λ c, ¬ isLoadReactors c) (step e st).2.
Proof.
  destruct st as [p h]. simpl. intros Hp He. rewrite step_unfold.
  cbn [fst snd].
  assert (Hafter : sourceExhausted (propsAfter e p) = true)
    by (by destruct e).
  split; [done|]. apply Forall_app. split.
  - destruct h as [closing tab ref pending ldeps gdeps].
    destruct e; unfold_hooks; simpl; try (repeat constructor; tauto).
    + rewrite Hp. simpl. constructor.
    + destruct ref as [id|]; [destruct (truthy (Some id))|]; simpl;
        repeat constructor; tauto.
  - unfold committedCalls, hasMore. rewrite Hafter. simpl.
    rewrite andb_false_r. constructor.
Qed.

(** C5. Once the reactors held carry no [nextOffset], [hasMore] is false,
    and as long as the props keep saying so no event makes the component
    call [loadReactors]: not scrolling near the end, however often, nor any
    other event. *)
Theorem exhausted_source_never_fetches (st : State) (es : list Event) :
  sourceExhausted st.1 = true →
  Forall staysExhausted es →
  hasMore st.1 = false
  ∧ Forall (λ c, ¬ isLoadReactors c) (run es st).2
  ∧ hasMore (run es st).1.1 = false.
Proof.
  intros Hst Hes. unfold hasMore. rewrite Hst. split; [done|].
  revert st Hst. induction Hes as [|e es He _ IH]; intros st Hst; simpl.
  - by rewrite Hst.
  - destruct (step_exhausted e st Hst He) as [Hst1 Hc1].
    destruct (step e st) as [st1 c1]. simpl in *.
    destruct (IH st1 Hst1) as [Hc2 Hst2].
    destruct (run es st1) as [st2 c2]. simpl in *.
    split; [by apply Forall_app|done].
Qed.

Lemma exhausted_source_never_fetches_scenario :
  let st := (mount (sessionProps true (Some lastPage))).1 in
  let es := [ScrollNearEnd; FetchSettled; ScrollNearEnd; ScrollNearEnd] in
  sourceExhausted st.1 = true
  ∧ hasMore st.1 = false
  ∧ Forall (λ c, ¬ isLoadReactors c) (run es st).2
  ∧ hasMore (run es st).1.1 = false.
Proof.
  intros st es. split; [reflexivity|].
  apply (exhausted_source_never_fetches st es); [reflexivity|].
  repeat constructor.
Defined.

(** Before exhaustion the same scrolling does fetch. *)
Example scrolling_fetches_while_more :
  (run [FetchSettled; ScrollNearEnd; ScrollNearEnd]
     (mount (sessionProps true (Some firstPage))).1).2
  = [GetMore Backwards; LoadReactors (Some "c1") (Some 42);
     GetMore Backwards].
Proof. reflexivity. Qed.

(** ** Selecting a filter *)

Lemma step_SelectFilter (tab : option string) (st : State) :
  settled st →
  step (SelectFilter tab) st
  = ((st.1, mkHooks (isClosing st.2) tab (chatIdRef st.2) (pendingFetch st.2)
              (lifecycleDeps st.2) (getMoreDeps st.2)), []).
Proof.
  destruct st as [p h]. intros (Hl & Hg & Href). unfold step.
  cbn [fst snd]. rewrite exec_bind.
  set (h1 := (exec (handler p (SelectFilter tab)) h).1).
  assert (Hh1 : exec (handler p (SelectFilter tab)) h
                = (mkHooks (isClosing h) tab (chatIdRef h) (pendingFetch h)
                     (lifecycleDeps h) (getMoreDeps h), [])) by reflexivity.
  subst h1. rewrite Hh1. cbn [fst snd].
  rewrite commit_settled_noop; [reflexivity|].
  split; [exact Hl|]. split; [exact Hg|]. exact Href.
Qed.

(** C7. Selecting filter tabs, any number of times, setting or clearing the
    tab, makes no call at all, so in particular no [loadReactors]: the props
    and the other cells stay as they were, only [chosenTab] follows the last
    selection, and [userIds] is recomputed from the reactors already held. *)
Theorem filter_selection_fetches_nothing
    (st : State) (tabs : list (option string)) :
  reachable st →
  (run (SelectFilter <$> tabs) st).2 = []
  ∧ (run (SelectFilter <$> tabs) st).1.1 = st.1
  ∧ chosenTab (run (SelectFilter <$> tabs) st).1.2
    = default (chosenTab st.2) (last tabs)
  ∧ pendingFetch (run (SelectFilter <$> tabs) st).1.2 = pendingFetch st.2.
Proof.
  intros Hst%reachable_settled. revert st Hst.
  induction tabs as [|tab tabs IH]; intros st Hst; [done|].
  rewrite fmap_cons, run_cons.
  pose proof (step_settled (SelectFilter tab) st Hst) as Hst1.
  rewrite (step_SelectFilter tab st Hst) in *. cbn [fst snd] in *.
  destruct (IH _ Hst1) as (Hc & Hp & Htab & Hpending).
  rewrite Hc, Hp, Htab, Hpending. simpl. repeat split.
  rewrite last_cons. by destruct (last tabs).
Qed.

Lemma filter_selection_fetches_nothing_scenario :
  let st := (mount (sessionProps true (Some firstPage))).1 in
  let tabs := [Some thumbsUp; None; Some heart] in
  (run (SelectFilter <$> tabs) st).2 = []
  ∧ (run (SelectFilter <$> tabs) st).1.1 = st.1
  ∧ chosenTab (run (SelectFilter <$> tabs) st).1.2 = Some heart
  ∧ pendingFetch (run (SelectFilter <$> tabs) st).1.2 = pendingFetch st.2.
Proof.
  intros st tabs.
  apply (filter_selection_fetches_nothing st tabs), reachable_mount.
Defined.

(** ** First mount *)

(** C8 (as the code has it). On first mount the effect calls the [getMore]
    it obtained once, with the backward direction, and this starts one page
    load for the chat and message of the props; when the reactors held are
    already exhausted there is no [getMore] and nothing is requested.
    Nothing else of the props, and so nothing about the ids to show, has a
    say. *)
Theorem mount_requests_more_once (p : Props) :
  (mount p).2
  = (if hasMore p
     then [GetMore Backwards; LoadReactors (chatId p) (messageId p)]
     else [])
  ∧ ∀ q, hasMore q = hasMore p → chatId q = chatId p →
      messageId q = messageId p → (mount q).2 = (mount p).2.
Proof.
  assert (Hcalls : ∀ q, (mount q).2
    = if hasMore q
      then [GetMore Backwards; LoadReactors (chatId q) (messageId q)]
      else []).
  { intros q. rewrite mount_unfold. unfold committedCalls, getMoreDue. simpl.
    by destruct (hasMore q). }
  split; [apply Hcalls|].
  intros q Hmore Hchat Hmessage.
  by rewrite (Hcalls q), (Hcalls p), Hmore, Hchat, Hmessage.
Qed.

(** C8 (as the spec states it) fails: mounted with reactors that are already
    exhausted, the overlay requests nothing and starts no page load. *)
Lemma mount_exhausted_loads_nothing :
  hasMore (sessionProps true (Some lastPage)) = false
  ∧ (mount (sessionProps true (Some lastPage))).2 = []
  ∧ Forall (λ c, ¬ isLoadReactors c)
      (mount (sessionProps true (Some lastPage))).2.
Proof. repeat split. constructor. Qed.

(** Mounted while more pages may exist, it requests the first load. *)
Example mount_with_more_to_load :
  (mount (sessionProps true (Some firstPage))).2
  = [GetMore Backwards; LoadReactors (Some "c1") (Some 42)]
  ∧ (mount (sessionProps true None)).2
    = [GetMore Backwards; LoadReactors (Some "c1") (Some 42)].
Proof. split; reflexivity. Qed.

(** ** The filter buttons *)

Lemma filterButtons_targets (p : Props) (h : Hooks) :
  onClickTab <$> filterButtons p h
  = if canShowFilters (p_reactors p) (p_reactions p)
    then None :: (Some <$> allReactions (p_reactors p))
    else [].
Proof.
  unfold filterButtons.
  destruct (canShowFilters _ _); [|done]. simpl. f_equal.
  rewrite <- list_fmap_compose. by apply list_fmap_ext.
Qed.

Lemma allReactions_elem (reactors : option ApiReactors) (kind : string) :
  kind ∈ allReactions reactors ↔ kind ∈ reaction <$> loadedEntries reactors.
Proof.
  destruct reactors as [r|]; simpl; [apply unique_elem|done].
Qed.

Lemma allReactions_NoDup (reactors : option ApiReactors) :
  NoDup (allReactions reactors).
Proof.
  destruct reactors as [r|]; simpl; [apply unique_NoDup|constructor].
Qed.

(** A reaction has a button exactly when the filters are shown and one of
    the entries held carries it. *)
Lemma reaction_button_iff (p : Props) (h : Hooks) (kind : string) :
  Some kind ∈ onClickTab <$> filterButtons p h
  ↔ canShowFilters (p_reactors p) (p_reactions p) = true
    ∧ kind ∈ reaction <$> loadedEntries (p_reactors p).
Proof.
  rewrite filterButtons_targets, <- allReactions_elem.
  destruct (canShowFilters _ _).
  - rewrite elem_of_cons, (list_elem_of_fmap_inj Some). naive_solver.
  - split; [by intros ?%elem_of_nil|by intros [? _]].
Qed.



Lemma step_keeps_no_tab (e : Event) (st : State) :
  ¬ isSelect e → chosenTab st.2 = None → chosenTab (step e st).1.2 = None.
Proof.
  destruct st as [p h]. intros He Htab. rewrite step_unfold. cbn [fst snd].
  assert (Hh : chosenTab (exec (handler p e) h).1 = None).
  { destruct h as [closing tab ref pending ldeps gdeps]. simpl in Htab.
    subst tab. destruct e; unfold_hooks; simpl in *; try done.
    - by destruct pending, (sourceExhausted p).
    - by destruct ref as [id|]; [destruct (truthy (Some id))|]. }
  unfold committedHooks. simpl. by destruct (closeFinished _ _).
Qed.

Lemma hidden_not_select (e : Event) (st : State) :
  canShowFilters (p_reactors st.1) (p_reactions st.1) = false →
  enabled st e → ¬ isSelect e.
Proof.
  intros Hhidden Hen. destruct e; simpl; try tauto.
  simpl in Hen. rewrite filterButtons_targets, Hhidden in Hen.
  by apply elem_of_nil in Hen.
Qed.

Lemma hidden_keeps_no_tab (es : list Event) (st : State) :
  chosenTab st.2 = None → hiddenAlong es st →
  chosenTab (run es st).1.2 = None.
Proof.
  revert st. induction es as [|e es IH]; intros st Htab Hes; [done|].
  destruct Hes as (Hhidden & Hen & Hrest). rewrite run_cons. cbn [fst].
  apply IH; [|done].
  apply step_keeps_no_tab; [|done]. by eapply hidden_not_select.
Qed.

(** C6 (as the code has it). The filter row is rendered exactly when
    reactors and aggregate counts are there, the total count is at least 10
    and the counts list more than one kind.  Otherwise there is no button,
    no selection can be made and an absent [chosenTab] stays absent.  When
    rendered, the row is the "all" button followed by one button for each
    distinct reaction of the entries held, which can be fewer than the
    kinds the counts list. *)
Theorem filters_need_ten_reactions_and_two_kinds (p : Props) (h : Hooks) :
  let shown := canShowFilters (p_reactors p) (p_reactions p) in
  (shown = true ↔
     ∃ r a, p_reactors p = Some r ∧ p_reactions p = Some a
            ∧ 10 ≤ count r
            ∧ (1 < length (results a))%nat)
  ∧ (∀ a, p_reactions p = Some a → NoDup (rc_reaction <$> results a) →
       length (results a) = distinctKinds a)
  ∧ (shown = false →
       filterButtons p h = []
       ∧ (∀ tab, ¬ enabled (p, h) (SelectFilter tab))
       ∧ ∀ es, chosenTab h = None → hiddenAlong es (p, h) →
               chosenTab (run es (p, h)).1.2 = None)
  ∧ (shown = true →
       onClickTab <$> filterButtons p h
       = None :: (Some <$> allReactions (p_reactors p))
       ∧ NoDup (allReactions (p_reactors p))
       ∧ ∀ kind, kind ∈ allReactions (p_reactors p)
                 ↔ kind ∈ reaction <$> loadedEntries (p_reactors p)).
Proof.
  intros shown. subst shown. split; [|split; [|split]].
  - unfold canShowFilters.
    destruct (p_reactors p) as [r|], (p_reactions p) as [a|];
      try (split; [done|by intros (? & ? & ? & ? & _)]).
    rewrite andb_true_iff, !bool_decide_eq_true. split.
    + intros [Hcount Hkinds]. exists r, a. repeat split; [done|lia].
    + intros (r' & a' & ? & ? & Hcount & Hkinds). simplify_eq. split; [done|lia].
  - intros a _ Hnd. unfold distinctKinds.
    by rewrite (unique_NoDup_id _ Hnd), length_fmap.
  - intros Hhidden. split; [|split].
    + unfold filterButtons. by rewrite Hhidden.
    + intros tab Hen. apply (hidden_not_select _ (p, h)) in Hen; [|done].
      by apply Hen.
    + intros es Htab Hes. by apply (hidden_keeps_no_tab es (p, h)).
  - intros Hshown. split; [|split].
    + by rewrite filterButtons_targets, Hshown.
    + apply allReactions_NoDup.
    + intros kind. apply allReactions_elem.
Qed.

(** C6 (as the spec states it) fails: with twelve reactions of two kinds
    among the aggregate counts the row is shown, but only one kind has
    arrived among the entries, and the row has the "all" button and that
    one kind's button only. *)
Lemma filter_tabs_follow_entries_not_results :
  let p := sessionProps true (Some thumbsOnlyPage) in
  canShowFilters (p_reactors p) (p_reactions p) = true
  ∧ unique (aggregateKinds (p_reactions p)) = [thumbsUp; heart]
  ∧ onClickTab <$> filterButtons p initialHooks = [None; Some thumbsUp]
  ∧ ¬ (∀ kind, kind ∈ aggregateKinds (p_reactions p) →
         Some kind ∈ onClickTab <$> filterButtons p initialHooks).
Proof.
  intros p. split; [reflexivity|]. split; [reflexivity|].
  split; [reflexivity|]. intros Hall.
  assert (Hheart : heart ∈ aggregateKinds (p_reactions p)).
  { apply (bool_decide_unpack _). vm_compute. exact I. }
  apply Hall in Hheart. revert Hheart.
  apply (bool_decide_unpack _). vm_compute. exact I.
Qed.

(** A tab chosen while the row was shown is kept when the count drops and
    the row disappears. *)
Example chosen_tab_outlives_the_filter_row :
  let below := mkProps true
    (Some (mkReactors 9 [mkUserReaction U1 thumbsUp; mkUserReaction U2 heart]
             None))
    (Some (mkReactions [mkReactionCount thumbsUp 5; mkReactionCount heart 4]))
    (Some "c1") (Some 42) (Some [U3]) in
  let st := (run [SelectFilter (Some thumbsUp); PropsChanged below]
               (mount (sessionProps true (Some firstPage))).1).1 in
  canShowFilters (p_reactors st.1) (p_reactions st.1) = false
  ∧ chosenTab st.2 = Some thumbsUp.
Proof. split; reflexivity. Qed.

Example filters_at_the_threshold :
  canShowFilters (Some (mkReactors 10 [] None))
    (Some (mkReactions [mkReactionCount thumbsUp 7; mkReactionCount heart 3]))
  = true
  ∧ canShowFilters (Some (mkReactors 9 [] None))
      (Some (mkReactions [mkReactionCount thumbsUp 6; mkReactionCount heart 3]))
    = false
  ∧ canShowFilters (Some (mkReactors 10 [] None))
      (Some (mkReactions [mkReactionCount thumbsUp 10]))
    = false.
Proof. repeat split. Qed.

(** * Further properties of the component *)

(** ** The rendered list *)

Lemma filter_disjoint_app {A} (P Q : A → Prop)
    `{!∀ x, Decision (P x)} `{!∀ x, Decision (Q x)} (l : list A) :
  (∀ x, P x → Q x → False) →
  filter P l ++ filter Q l ≡ₚ filter (λ x, P x ∨ Q x) l.
Proof.
  intros Hdisj. induction l as [|x l IH]; [done|].
  rewrite !filter_cons.
  destruct (decide (P x)) as [HP|HP], (decide (Q x)) as [HQ|HQ].
  - by destruct (Hdisj x).
  - rewrite decide_True by tauto. simpl. by rewrite IH.
  - rewrite decide_True by tauto. rewrite <- Permutation_middle.
    by rewrite IH.
  - rewrite decide_False by tauto. done.
Qed.

(** The entries of the users of a duplicate-free id list, user by user, are
    the entries of those users. *)
Lemma bind_entriesOf (reactors : option ApiReactors) (ids : list string) :
  NoDup ids →
  ids ≫= entriesOf reactors
  ≡ₚ filter (λ l, userId l ∈ ids) (loadedEntries reactors).
Proof.
  induction 1 as [|u ids Hu _ IH].
  - simpl. symmetry. apply Permutation_nil_r.
    induction (loadedEntries reactors) as [|l ls IHl]; [done|].
    rewrite filter_cons_False; [done|]. apply not_elem_of_nil.
  - rewrite bind_cons, IH. unfold entriesOf.
    rewrite filter_disjoint_app.
    + apply reflexive_eq, list_filter_iff. intros l.
      rewrite elem_of_cons. done.
    + intros l <- Hin. done.
Qed.

Lemma elem_of_bind_entriesOf (reactors : option ApiReactors)
    (ids : list string) (l : ApiUserReaction) :
  l ∈ ids ≫= entriesOf reactors
  ↔ l ∈ loadedEntries reactors ∧ userId l ∈ ids.
Proof.
  rewrite list_elem_of_bind. unfold entriesOf. split.
  - intros (u & [Hu Hl]%list_elem_of_filter & Hin). by subst.
  - intros [Hl Hin]. exists (userId l). split; [|done].
    by apply list_elem_of_filter.
Qed.

(** A key determines user and reaction when the user ids have no hyphen. *)
Lemma key_inj (u1 u2 r1 r2 : string) :
  hyphenFree u1 → hyphenFree u2 →
  u1 +:+ "-" +:+ r1 = u2 +:+ "-" +:+ r2 → u1 = u2 ∧ r1 = r2.
Proof.
  assert (Hnil : ∀ t, "" +:+ t = t) by reflexivity.
  assert (Hcons : ∀ a t1 t2, String a t1 +:+ t2 = String a (t1 +:+ t2))
    by reflexivity.
  revert u2. induction u1 as [|a u1 IH]; intros [|b u2] H1 H2;
    rewrite ?Hnil, ?Hcons; intros Heq.
  - split; [done|]. by injection Heq.
  - destruct H2 as [Hb _]. injection Heq as Hab _. by destruct Hb.
  - destruct H1 as [Ha _]. injection Heq as Hab _. by destruct Ha.
  - destruct H1 as [_ H1], H2 as [_ H2]. injection Heq as -> Heq.
    destruct (IH u2 H1 H2 Heq) as [-> ->]. done.
Qed.

(** The ids of a filtered view repeat no user when no entry is repeated. *)
Lemma filtered_ids_NoDup (tab : string) (entries : list ApiUserReaction) :
  NoDup entries →
  NoDup (userId <$> filter (λ l, reaction l = tab) entries).
Proof.
  intros Hnd. apply NoDup_fmap_2_strong; [|by apply NoDup_filter].
  intros [u1 k1] [u2 k2] [Hk1 _]%list_elem_of_filter
    [Hk2 _]%list_elem_of_filter Hu. simpl in *. by subst.
Qed.

Section ListFacts.
Context {ApiUser : Type}.
Variable usersById : string → option ApiUser.
Implicit Types (reactors : option ApiReactors) (ids : list string).

Lemma userItems_entriesOf reactors (user : string) :
  userItems usersById reactors user
  = (λ l, listItem usersById (userId l) l) <$> entriesOf reactors user.
Proof.
  unfold userItems, userReactions, entriesOf.
  destruct reactors as [r|]; simpl; [|done].
  apply list_fmap_ext. intros i l Hl%list_elem_of_lookup_2.
  apply list_elem_of_filter in Hl as [<- _]. done.
Qed.

(** The items are those of the entries of the listed users, user by user. *)
Lemma children_entries reactors ids :
  ids ≫= userItems usersById reactors
  = (λ l, listItem usersById (userId l) l) <$> (ids ≫= entriesOf reactors).
Proof.
  induction ids as [|u ids IH]; [done|].
  by rewrite !bind_cons, fmap_app, IH, userItems_entriesOf.
Qed.

(** X1. Without a chosen tab every duplicate-free window of [userIds]
    renders one item for each entry of the users in the window, each entry
    once.  With all of [userIds] in the window and reactors present, the
    loading indicator is rendered exactly when there is neither an entry nor
    a seen id, and otherwise the list with one item for every entry held;
    with reactors absent it is the loading indicator whatever the seen ids
    are. *)
Theorem unfiltered_list_shows_each_entry_once
    (r : ApiReactors) (seen : option (list string)) :
  (∃ ids,
     userIds None (Some r) seen = Some ids
     ∧ (∀ viewport, sublist viewport ids →
          viewport ≫= userItems usersById (Some r)
          ≡ₚ (λ l, listItem usersById (userId l) l)
             <$> filter (λ l, userId l ∈ viewport) (reactions r))
     ∧ (listBody usersById (Some ids) (Some r) = Loading
        ↔ reactions r = [] ∧ default [] seen = [])
     ∧ (¬ (reactions r = [] ∧ default [] seen = []) →
        ∃ children,
          listBody usersById (Some ids) (Some r) = Scroll ids children
          ∧ children
            ≡ₚ (λ l, listItem usersById (userId l) l) <$> reactions r))
  ∧ listBody usersById (userIds None None seen) None = Loading.
Proof.
  split; [|reflexivity].
  eexists. split; [reflexivity|].
  set (ids := unique ((userId <$> reactions r) ++ default [] seen)).
  assert (Hempty : length ids = 0%nat
                   ↔ reactions r = [] ∧ default [] seen = []).
  { split.
    - intros Hlen.
      assert (Hnil : (userId <$> reactions r) ++ default [] seen = []).
      { destruct ((userId <$> reactions r) ++ default [] seen)
          as [|u us] eqn:E; [done|].
        subst ids. by rewrite unique_cons in Hlen. }
      apply app_eq_nil in Hnil as [Hr Hs]. split; [|done].
      by apply fmap_nil_inv in Hr.
    - intros [Hr Hs]. subst ids. by rewrite Hr, Hs. }
  split; [|split].
  - intros viewport Hsub. rewrite children_entries.
    rewrite (bind_entriesOf (Some r) viewport); [done|].
    eapply sublist_NoDup; [apply unique_NoDup|exact Hsub].
  - unfold listBody. case_bool_decide as Hlen.
    + split; [discriminate|]. intros Hnone%Hempty. by destruct Hlen.
    + split; [|done]. intros _. by apply Hempty.
  - intros Hsome. unfold listBody.
    rewrite bool_decide_eq_true_2 by (by intros ?%Hempty).
    eexists. split; [reflexivity|]. rewrite children_entries.
    rewrite (bind_entriesOf (Some r)) by apply unique_NoDup.
    apply reflexive_eq. f_equal. simpl. apply filter_all, Forall_forall.
    intros l Hl. apply unique_elem, elem_of_app. left.
    by apply list_elem_of_fmap_2.
Qed.

(** X2. A user who is only in the seen-set is in the unfiltered [userIds],
    yet no window renders an item for that user: items are made from
    reaction entries only. *)
Theorem seen_only_user_has_no_item
    (r : ApiReactors) (seen : list string) (u : string) :
  u ∈ seen →
  u ∉ (userId <$> reactions r) →
  ∃ ids,
    userIds None (Some r) (Some seen) = Some ids
    ∧ u ∈ ids
    ∧ ∀ viewport item,
        item ∈ viewport ≫= userItems usersById (Some r) →
        item_onClick item ≠ u.
Proof.
  intros Hseen Hnone. eexists. split; [reflexivity|]. split.
  - apply unique_elem, elem_of_app. by right.
  - intros viewport item. rewrite children_entries.
    intros (l & -> & [Hl _]%elem_of_bind_entriesOf)%list_elem_of_fmap.
    simpl in *. intros <-. apply Hnone. by apply list_elem_of_fmap_2.
Qed.

(** X3. With a chosen tab every user in a window of [userIds] has an entry
    of the chosen kind, and the window renders all the entries of its
    users, whatever their kind, and nothing else; a window that repeats no
    user renders each of them once. *)
Theorem filtered_list_shows_all_kinds_of_matching_users
    (tab : string) (r : ApiReactors) (seen : option (list string)) :
  truthy (Some tab) = true →
  ∃ ids,
    userIds (Some tab) (Some r) seen = Some ids
    ∧ ∀ viewport, viewport ⊆ ids →
        (∀ u, u ∈ viewport → mkUserReaction u tab ∈ reactions r)
        ∧ ∃ shown,
            viewport ≫= userItems usersById (Some r)
            = (λ l, listItem usersById (userId l) l) <$> shown
            ∧ (∀ l, l ∈ shown ↔ l ∈ reactions r ∧ userId l ∈ viewport)
            ∧ (NoDup viewport →
               shown ≡ₚ filter (λ l, userId l ∈ viewport) (reactions r)).
Proof.
  intros Hset.
  set (ids := userId <$> filter (λ l, reaction l = tab) (reactions r)).
  exists ids. split; [by apply userIds_filtered|].
  intros viewport Hsub. split.
  - intros u Hu%Hsub. by apply elem_of_filtered.
  - exists (viewport ≫= entriesOf (Some r)).
    split; [apply children_entries|]. split.
    + intros l. apply elem_of_bind_entriesOf.
    + intros Hnd. by apply bind_entriesOf.
Qed.

(** X4. The keys of the items are pairwise distinct when the listed ids
    repeat no user and contain no hyphen and no entry is repeated. *)
Theorem item_keys_distinct (reactors : option ApiReactors) ids :
  NoDup ids →
  Forall hyphenFree ids →
  NoDup (loadedEntries reactors) →
  NoDup (item_key <$> (ids ≫= userItems usersById reactors)).
Proof.
  intros Hids Hfree Hentries. rewrite children_entries.
  rewrite <- list_fmap_compose.
  apply NoDup_fmap_2_strong.
  - intros l1 l2 [Hl1 Hu1]%elem_of_bind_entriesOf
      [Hl2 Hu2]%elem_of_bind_entriesOf Hkey. simpl in Hkey.
    rewrite Forall_forall in Hfree.
    apply key_inj in Hkey as [Hu Hr]; [|by apply Hfree..].
    destruct l1, l2. simpl in *. by subst.
  - rewrite bind_entriesOf by done. by apply NoDup_filter.
Qed.
End ListFacts.

Lemma seen_only_user_has_no_item_scenario :
  U3 ∈ [U3]
  ∧ (U3 ∉ userId <$> reactions scenarioReactors)
  ∧ ∃ ids,
      userIds None (Some scenarioReactors) (Some [U3]) = Some ids
      ∧ U3 ∈ ids
      ∧ ∀ viewport item,
          item ∈ viewport ≫= userItems noUsers (Some scenarioReactors) →
          item_onClick item ≠ U3.
Proof.
  assert (Hseen : U3 ∈ [U3]) by apply list_elem_of_here.
  assert (Hnone : U3 ∉ (userId <$> reactions scenarioReactors)).
  { apply (bool_decide_unpack _). vm_compute. exact I. }
  split; [exact Hseen|]. split; [exact Hnone|].
  exact (seen_only_user_has_no_item noUsers scenarioReactors [U3] U3
           Hseen Hnone).
Defined.

Lemma filtered_list_shows_all_kinds_of_matching_users_scenario :
  truthy (Some thumbsUp) = true
  ∧ ∃ ids shown,
      userIds (Some thumbsUp) (Some scenarioReactors) scenarioSeen = Some ids
      ∧ ids ≫= userItems noUsers (Some scenarioReactors)
        = (λ l, listItem noUsers (userId l) l) <$> shown
      ∧ mkUserReaction U1 heart ∈ shown.
Proof.
  split; [reflexivity|].
  destruct (filtered_list_shows_all_kinds_of_matching_users noUsers thumbsUp
              scenarioReactors scenarioSeen eq_refl) as (ids & Hids & Hview).
  destruct (Hview ids (λ u Hu, Hu)) as (_ & shown & Hitems & Hshown & _).
  exists ids, shown. split; [exact Hids|]. split; [exact Hitems|].
  apply Hshown. injection Hids as <-.
  split; apply (bool_decide_unpack _); vm_compute; exact I.
Defined.

Lemma item_keys_distinct_scenario :
  NoDup [U1; U2; U3]
  ∧ Forall hyphenFree [U1; U2; U3]
  ∧ NoDup (loadedEntries (Some scenarioReactors))
  ∧ NoDup (item_key <$>
             ([U1; U2; U3] ≫= userItems noUsers (Some scenarioReactors))).
Proof.
  assert (Hids : NoDup [U1; U2; U3]).
  { apply (bool_decide_unpack _). vm_compute. exact I. }
  assert (Hfree : Forall hyphenFree [U1; U2; U3]).
  { repeat constructor; discriminate. }
  assert (Hentries : NoDup (loadedEntries (Some scenarioReactors))).
  { apply (bool_decide_unpack _). vm_compute. exact I. }
  split; [exact Hids|]. split; [exact Hfree|]. split; [exact Hentries|].
  exact (item_keys_distinct noUsers (Some scenarioReactors) [U1; U2; U3]
           Hids Hfree Hentries).
Defined.

(** With a hyphen in a user id two different entries can share a key. *)
Example item_keys_collide_with_hyphen :
  item_key <$>
    (["a-b"; "a"] ≫= userItems noUsers
       (Some (mkReactors 2
                [mkUserReaction "a-b" "c"; mkUserReaction "a" "b-c"] None)))
  = ["a-b-c"; "a-b-c"].
Proof. reflexivity. Qed.

(** ** The filter row *)

(** X5. Every reaction button leads to a non-empty id list: selecting its
    reaction makes [userIds] contain a user whose entry carries it. *)
Theorem offered_reaction_has_users (p : Props) (h : Hooks) (kind : string) :
  Some kind ∈ onClickTab <$> filterButtons p h →
  ∃ ids u,
    userIds (Some kind) (p_reactors p) (seenByUserIds p) = Some ids
    ∧ u ∈ ids
    ∧ mkUserReaction u kind ∈ loadedEntries (p_reactors p).
Proof.
  intros [Hshown Hkind]%reaction_button_iff.
  apply list_elem_of_fmap in Hkind as ([u k] & Hk & Hl). simpl in Hk. subst k.
  destruct (p_reactors p) as [r|] eqn:Hr; [|by apply elem_of_nil in Hl].
  simpl in Hl. unfold userIds.
  destruct (truthy (Some kind)) eqn:Hset.
  - eexists _, u. split; [reflexivity|]. split; [|done].
    apply (list_elem_of_fmap_2' _ _ (mkUserReaction u kind)); [|done].
    by apply list_elem_of_filter.
  - eexists _, u. split; [reflexivity|]. split; [|done].
    apply unique_elem, elem_of_app. left.
    by apply (list_elem_of_fmap_2' _ _ (mkUserReaction u kind)).
Qed.

Lemma offered_reaction_has_users_scenario :
  let p := sessionProps true (Some firstPage) in
  Some heart ∈ onClickTab <$> filterButtons p initialHooks
  ∧ ∃ ids u,
      userIds (Some heart) (p_reactors p) (seenByUserIds p) = Some ids
      ∧ u ∈ ids
      ∧ mkUserReaction u heart ∈ loadedEntries (p_reactors p).
Proof.
  intros p.
  assert (Hbutton : Some heart ∈ onClickTab <$> filterButtons p initialHooks).
  { apply (bool_decide_unpack _). vm_compute. exact I. }
  split; [exact Hbutton|].
  exact (offered_reaction_has_users p initialHooks heart Hbutton).
Defined.

Lemma filter_eq_NoDup (kinds : list string) (kind : string) :
  NoDup kinds →
  filter (λ k, Some kind = Some k) kinds
  = if bool_decide (kind ∈ kinds) then [kind] else [].
Proof.
  induction 1 as [|k kinds Hk _ IH]; [done|]. rewrite filter_cons, IH.
  destruct (decide (Some kind = Some k)) as [Heq|Hne].
  - simplify_eq.
    rewrite (bool_decide_eq_false_2 (k ∈ kinds)) by done.
    by rewrite (bool_decide_eq_true_2 (k ∈ k :: kinds))
      by apply list_elem_of_here.
  - destruct (decide (kind ∈ kinds)) as [Hin|Hin].
    + rewrite (bool_decide_eq_true_2 (kind ∈ kinds)) by done.
      by rewrite (bool_decide_eq_true_2 (kind ∈ k :: kinds))
        by by apply list_elem_of_further.
    + rewrite (bool_decide_eq_false_2 (kind ∈ kinds)) by done.
      rewrite (bool_decide_eq_false_2 (kind ∈ k :: kinds)); [done|].
      intros [->|?]%elem_of_cons; [by destruct Hne|done].
Qed.

(** X6. In the rendered filter row at most one button carries the [chosen]
    class, unless the chosen tab is the empty string: the "all" button when
    no tab is chosen, the button of the chosen reaction when an entry held
    carries it, and none when no entry does. *)
Theorem chosen_button_unique (p : Props) (h : Hooks) :
  chosenTab h ≠ Some "" →
  filter isChosen (filterButtons p h)
  = if canShowFilters (p_reactors p) (p_reactions p) then
      match chosenTab h with
      | None => [AllButton true (count <$> p_reactors p)]
      | Some kind =>
          if bool_decide (kind ∈ allReactions (p_reactors p))
          then [ReactionButton kind true (aggregateCount (p_reactions p) kind)]
          else []
      end
    else [].
Proof.
  intros Hne. unfold filterButtons.
  destruct (canShowFilters _ _); [|done].
  assert (Hkinds : ∀ kinds : list string,
    filter isChosen (reactionButton p h <$> kinds)
    = reactionButton p h <$> filter (λ k, chosenTab h = Some k) kinds).
  { induction kinds as [|k kinds IH]; [done|].
    rewrite fmap_cons, !filter_cons, IH. simpl.
    destruct (decide (chosenTab h = Some k)) as [Heq|Hneq].
    - rewrite decide_True; [done|]. by apply bool_decide_eq_true_2.
    - rewrite decide_False; [done|]. by rewrite bool_decide_eq_false_2. }
  rewrite filter_cons, Hkinds. simpl.
  destruct (chosenTab h) as [kind|] eqn:Htab.
  - assert (Htruthy : truthy (Some kind) = true).
    { simpl. destruct (String.eqb_spec kind ""); [by subst|done]. }
    rewrite Htruthy. simpl.
    rewrite (filter_eq_NoDup _ kind (allReactions_NoDup _)).
    case_bool_decide; [|done]. simpl. unfold reactionButton.
    by rewrite Htab, bool_decide_eq_true_2.
  - simpl. f_equal.
    induction (allReactions (p_reactors p)) as [|k ks IH]; [done|].
    by rewrite filter_cons_False.
Qed.

Lemma chosen_button_unique_scenario :
  let p := sessionProps true (Some firstPage) in
  let h := mkHooks false (Some heart) None false None None in
  chosenTab h ≠ Some ""
  ∧ filter isChosen (filterButtons p h) = [ReactionButton heart true (Some 5)].
Proof.
  intros p h.
  assert (Hne : chosenTab h ≠ Some "") by discriminate.
  split; [exact Hne|].
  rewrite (chosen_button_unique p h Hne). reflexivity.
Defined.

(** With the empty string as chosen tab both the "all" button and the
    button of an entry without reaction are marked. *)
Example empty_reaction_marks_two_buttons :
  filter isChosen
    (filterButtons
       (mkProps true
          (Some (mkReactors 10 [mkUserReaction U1 ""; mkUserReaction U2 heart]
                   None))
          (Some (mkReactions [mkReactionCount "" 5; mkReactionCount heart 5]))
          None None None)
       (mkHooks false (Some "") None false None None))
  = [AllButton true (Some 10); ReactionButton "" true (Some 5)].
Proof. reflexivity. Qed.

(** ** Closing, navigating and reopening *)

Lemma run_app (es1 es2 : list Event) (st : State) :
  run (es1 ++ es2) st
  = ((run es2 (run es1 st).1).1, (run es1 st).2 ++ (run es2 (run es1 st).1).2).
Proof.
  revert st. induction es1 as [|e es1 IH]; intros st.
  - simpl. by destruct (run es2 st).
  - rewrite <- app_comm_cons, !run_cons, IH. cbn [fst snd].
    by rewrite app_assoc.
Qed.

(** No handler touches the dependency records of the effects. *)
Lemma handler_keeps_deps (p : Props) (e : Event) (h : Hooks) :
  lifecycleDeps (exec (handler p e) h).1 = lifecycleDeps h
  ∧ getMoreDeps (exec (handler p e) h).1 = getMoreDeps h.
Proof.
  destruct h as [closing tab ref pending ldeps gdeps].
  destruct e; unfold_hooks; simpl; try done.
  - by destruct (sourceExhausted p), pending.
  - by destruct ref as [id|]; [destruct (truthy (Some id))|].
Qed.

Lemma committedCalls_same_key (p : Props) (h : Hooks) :
  getMoreDeps h = Some (getMoreKeyOf p) → committedCalls p h = [].
Proof.
  intros Hkey. unfold committedCalls, getMoreDue.
  by rewrite bool_decide_eq_true_2.
Qed.

(** With unchanged props only the handler itself makes calls. *)
Lemma step_calls_same_props (e : Event) (st : State) :
  settled st → propsAfter e st.1 = st.1 →
  (step e st).2 = (exec (handler st.1 e) st.2).2.
Proof.
  destruct st as [p h]. intros (_ & Hkey & _) Hsame. simpl in *.
  rewrite step_unfold. cbn [fst snd]. rewrite Hsame.
  rewrite committedCalls_same_key; [apply app_nil_r|].
  by rewrite (proj2 (handler_keeps_deps p e h)).
Qed.

(** What holds of every reachable state: it is settled, and closed props
    leave no closing flag up. *)
Lemma reachable_invariant (st : State) :
  reachable st →
  settled st ∧ (isOpen st.1 = false → isClosing st.2 = false).
Proof.
  induction 1 as [p|e [p h] Hst [Hset IH]].
  - split; [apply mount_settled|]. rewrite mount_unfold. simpl.
    unfold committedHooks, closeFinished. simpl. done.
  - split; [by apply step_settled|].
    destruct Hset as (Hl & _ & _). simpl in Hl, IH.
    rewrite step_unfold. cbn [fst snd].
    destruct (handler_keeps_deps p e h) as [Hdeps _].
    unfold committedHooks, closeFinished, lifecycleDue. simpl.
    rewrite Hdeps, Hl. intros Hclosed. rewrite Hclosed.
    destruct (isClosing (exec (handler p e) h).1) eqn:Hc; [|by destruct (_ && _)].
    case_bool_decide as Heq; [|done]. simplify_eq.
    match goal with H : isOpen p = false |- _ => specialize (IH H) end.
    congruence.
Qed.

(** X7. While the props say closed the closing flag is down: in every
    reachable state [isClosing] implies [isOpen]. *)
Theorem closing_only_while_props_open (st : State) :
  reachable st → isClosing st.2 = true → isOpen st.1 = true.
Proof.
  intros [_ Hclosed]%reachable_invariant Hc.
  destruct (isOpen st.1); [done|]. specialize (Hclosed eq_refl). congruence.
Qed.

Lemma closing_only_while_props_open_scenario :
  let st := (step (ClickEntry U2)
               (mount (sessionProps true (Some firstPage))).1).1 in
  isClosing st.2 = true ∧ isOpen st.1 = true.
Proof.
  intros st.
  assert (Hc : isClosing st.2 = true) by reflexivity.
  split; [exact Hc|].
  apply (closing_only_while_props_open st); [|exact Hc].
  apply reachable_step, reachable_mount.
Defined.

(** What an event that starts the closing does to a reachable state. *)
Lemma step_startsClosing (e : Event) (st : State) :
  reachable st → startsClosing e →
  (step e st).2 = []
  ∧ (step e st).1.1 = st.1
  ∧ isClosing (step e st).1.2 = isOpen st.1
  ∧ chosenTab (step e st).1.2
    = (if isOpen st.1 then chosenTab st.2 else None)
  ∧ chatIdRef (step e st).1.2
    = match e with ClickEntry u => Some u | _ => chatIdRef st.2 end.
Proof.
  intros [Hset Hclosed]%reachable_invariant He.
  split; [rewrite step_calls_same_props by (done || by destruct e);
          by destruct e|].
  destruct st as [p h]. destruct Hset as (Hl & _ & _).
  destruct h as [closing tab ref pending ldeps gdeps]. simpl in *. subst ldeps.
  rewrite step_unfold.
  destruct e; try done; unfold_hooks;
    unfold committedHooks, closeFinished, lifecycleDue; simpl;
    destruct (isOpen p) eqn:Ho, closing; simpl;
    try (by specialize (Hclosed eq_refl)); done.
Qed.

(** What the end of the close animation does to a reachable state. *)
Lemma step_CloseAnimationEnd (st : State) :
  settled st →
  step CloseAnimationEnd st
  = (st, navigation st.2 ++ [CloseReactorListModal]).
Proof.
  intros Hset. destruct st as [p h]. unfold step. cbn [fst snd propsAfter].
  rewrite exec_bind.
  assert (Hh : exec (handler p CloseAnimationEnd) h
               = (h, navigation h ++ [CloseReactorListModal])).
  { unfold navigation. destruct h as [closing tab ref pending ldeps gdeps].
    unfold_hooks. simpl.
    destruct ref as [id|]; [|done]. unfold truthy.
    by destruct (negb (String.eqb id "")). }
  rewrite Hh. cbn [fst snd]. rewrite (commit_settled_noop p h Hset).
  cbn [fst snd]. by rewrite app_nil_r.
Qed.

(** X8. The end of the close animation changes nothing in the component:
    the recorded target stays, so every further animation end makes the
    same calls again, the chat of the target first and the closing of the
    modal after it. *)
Theorem animation_end_keeps_target (st : State) (n : nat) :
  reachable st →
  run (replicate n CloseAnimationEnd) st
  = (st, mjoin (replicate n (navigation st.2 ++ [CloseReactorListModal]))).
Proof.
  intros [Hset _]%reachable_invariant.
  induction n as [|n IH]; [done|].
  rewrite !replicate_S, run_cons, step_CloseAnimationEnd by done.
  cbn [fst snd]. by rewrite IH.
Qed.

Lemma animation_end_keeps_target_scenario :
  let st := (step (ClickEntry U2)
               (mount (sessionProps true (Some firstPage))).1).1 in
  run (replicate 2 CloseAnimationEnd) st
  = (st, [OpenChat U2; CloseReactorListModal;
          OpenChat U2; CloseReactorListModal]).
Proof.
  intros st. rewrite (animation_end_keeps_target st 2); [reflexivity|].
  apply reachable_step, reachable_mount.
Defined.

(** X9. Closing an open overlay with the close controls opens no chat: the
    animation end that follows only closes the modal. *)
Theorem close_request_never_navigates (st : State) :
  reachable st → overlayOpen st = true →
  (run [RequestClose; CloseAnimationEnd] st).2 = [CloseReactorListModal].
Proof.
  intros Hst Hopen.
  destruct (step_startsClosing RequestClose st Hst I)
    as (Hcalls & _ & _ & _ & Href).
  destruct (reachable_invariant st Hst) as [(_ & _ & Hnone) _].
  rewrite !run_cons, Hcalls. cbn [run fst snd].
  rewrite step_CloseAnimationEnd
    by (apply reachable_settled, reachable_step, Hst).
  cbn [fst snd]. unfold navigation. by rewrite Href, (Hnone Hopen).
Qed.

Lemma close_request_never_navigates_scenario :
  let st := (mount (sessionProps true (Some firstPage))).1 in
  overlayOpen st = true
  ∧ (run [RequestClose; CloseAnimationEnd] st).2 = [CloseReactorListModal].
Proof.
  intros st. assert (Hopen : overlayOpen st = true) by reflexivity.
  split; [exact Hopen|].
  apply (close_request_never_navigates st); [apply reachable_mount|exact Hopen].
Defined.

(** X10. However many entries are clicked before the close animation ends,
    the chat that is opened is that of the last one clicked, and the modal
    is closed after it; a last click with an empty user id opens no chat. *)
Theorem last_click_is_navigated
    (st : State) (earlier : list string) (u : string) :
  reachable st →
  (run ((ClickEntry <$> earlier) ++ [ClickEntry u; CloseAnimationEnd]) st).2
  = (if bool_decide (u = "") then [] else [OpenChat u])
    ++ [CloseReactorListModal].
Proof.
  intros Hst. revert st Hst.
  induction earlier as [|v earlier IH]; intros st Hst.
  - destruct (step_startsClosing (ClickEntry u) st Hst I)
      as (Hcalls & _ & _ & _ & Href).
    simpl app. rewrite !run_cons, Hcalls. cbn [run fst snd].
    rewrite step_CloseAnimationEnd
      by (apply reachable_settled, reachable_step, Hst).
    cbn [fst snd]. unfold navigation. rewrite Href. simpl.
    destruct (String.eqb_spec u "") as [->|Hne]; [done|].
    by rewrite bool_decide_eq_false_2.
  - destruct (step_startsClosing (ClickEntry v) st Hst I) as (Hcalls & _).
    rewrite fmap_cons, <- app_comm_cons, run_cons, Hcalls. cbn [fst snd].
    simpl app. apply IH, reachable_step, Hst.
Qed.

Lemma last_click_is_navigated_scenario :
  (run ((ClickEntry <$> [U2; U3]) ++ [ClickEntry U1; CloseAnimationEnd])
     (mount (sessionProps true (Some firstPage))).1).2
  = [OpenChat U1; CloseReactorListModal].
Proof.
  apply (last_click_is_navigated _ [U2; U3] U1), reachable_mount.
Defined.

(** What new props do to the cells of a reachable state. *)
Lemma step_PropsChanged (p' : Props) (st : State) :
  reachable st →
  (step (PropsChanged p') st).1.1 = p'
  ∧ isClosing (step (PropsChanged p') st).1.2
    = isClosing st.2 && isOpen p'
  ∧ chosenTab (step (PropsChanged p') st).1.2
    = (if isClosing st.2 && negb (isOpen p') then None else chosenTab st.2)
  ∧ chatIdRef (step (PropsChanged p') st).1.2
    = (if isOpen p' && negb (isClosing st.2) then None else chatIdRef st.2).
Proof.
  intros [Hset Hclosed]%reachable_invariant.
  destruct st as [p h]. destruct Hset as (Hl & _ & Hnone).
  unfold overlayOpen in Hnone.
  destruct h as [closing tab ref pending ldeps gdeps]. simpl in *. subst ldeps.
  rewrite step_unfold. unfold_hooks.
  unfold committedHooks, closeFinished, lifecycleDue. simpl.
  split; [done|].
  destruct (isOpen p) eqn:Ho, (isOpen p') eqn:Ho', closing; simpl;
    try (by specialize (Hclosed eq_refl));
    try (by rewrite (Hnone eq_refl)); done.
Qed.

(** X11. A session that is closed in the regular way leaves nothing behind:
    after an open overlay was closed by a close control or a click, the
    animation ended and the props went to closed and back to open, the
    overlay is open again with no chosen tab, no target and no closing
    flag. *)
Theorem regular_close_resets_session
    (st : State) (e : Event) (closed reopened : Props) :
  reachable st → overlayOpen st = true → startsClosing e →
  isOpen closed = false → isOpen reopened = true →
  let after :=
    (run [e; CloseAnimationEnd; PropsChanged closed; PropsChanged reopened]
       st).1 in
  after.1 = reopened
  ∧ overlayOpen after = true
  ∧ chosenTab after.2 = None
  ∧ chatIdRef after.2 = None.
Proof.
  intros Hst Hopen He Hclosed Hreopened after. subst after.
  unfold overlayOpen in Hopen.
  apply andb_true_iff in Hopen as [Ho Hc%negb_true_iff].
  destruct (step_startsClosing e st Hst He) as (_ & _ & Hc1 & _ & _).
  pose proof (reachable_step e st Hst) as Hst1.
  rewrite !run_cons. cbn [run fst snd].
  rewrite (step_CloseAnimationEnd _ (reachable_settled _ Hst1)). cbn [fst].
  destruct (step_PropsChanged closed _ Hst1) as (Hp2 & Hc2 & Ht2 & _).
  pose proof (reachable_step (PropsChanged closed) _ Hst1) as Hst2.
  destruct (step_PropsChanged reopened _ Hst2) as (Hp3 & Hc3 & Ht3 & Hr3).
  rewrite Hc1, Ho, Hclosed in Hc2. rewrite Hc1, Ho, Hclosed in Ht2.
  simpl in Hc2, Ht2.
  rewrite Hc2 in Hc3. rewrite Hc2, Ht2 in Ht3. rewrite Hc2, Hreopened in Hr3.
  simpl in Hc3, Ht3, Hr3.
  unfold overlayOpen. rewrite Hp3, Hc3, Ht3, Hr3, Hreopened. done.
Qed.

Lemma regular_close_resets_session_scenario :
  let st := (step (SelectFilter (Some heart))
               (mount (sessionProps true (Some firstPage))).1).1 in
  let after :=
    (run [ClickEntry U2; CloseAnimationEnd;
          PropsChanged (sessionProps false None);
          PropsChanged (sessionProps true (Some lastPage))] st).1 in
  chosenTab st.2 = Some heart
  ∧ after.1 = sessionProps true (Some lastPage)
  ∧ overlayOpen after = true
  ∧ chosenTab after.2 = None
  ∧ chatIdRef after.2 = None.
Proof.
  intros st after. split; [reflexivity|].
  apply (regular_close_resets_session st (ClickEntry U2)
           (sessionProps false None) (sessionProps true (Some lastPage)));
    [apply reachable_step, reachable_mount|reflexivity|exact I
    |reflexivity|reflexivity].
Defined.

(** X12. New props alone never reset the chosen tab: as long as no closing
    was started, the tab survives any sequence of props, also one that
    closes and reopens the overlay. *)
Theorem props_alone_keep_chosen_tab (st : State) (ps : list Props) :
  reachable st → isClosing st.2 = false →
  chosenTab (run (PropsChanged <$> ps) st).1.2 = chosenTab st.2
  ∧ isClosing (run (PropsChanged <$> ps) st).1.2 = false.
Proof.
  revert st. induction ps as [|p' ps IH]; intros st Hst Hc; [done|].
  rewrite fmap_cons, run_cons. cbn [fst].
  destruct (step_PropsChanged p' st Hst) as (_ & Hc1 & Ht1 & _).
  rewrite Hc in Hc1, Ht1. simpl in Hc1, Ht1.
  destruct (IH _ (reachable_step _ _ Hst) Hc1) as [Ht Hc'].
  by rewrite Ht, Hc', Ht1.
Qed.

Lemma props_alone_keep_chosen_tab_scenario :
  let st := (step (SelectFilter (Some heart))
               (mount (sessionProps true (Some firstPage))).1).1 in
  let ps := [sessionProps false None; sessionProps true (Some lastPage)] in
  isClosing st.2 = false
  ∧ chosenTab (run (PropsChanged <$> ps) st).1.2 = Some heart
  ∧ isClosing (run (PropsChanged <$> ps) st).1.2 = false.
Proof.
  intros st ps. split; [reflexivity|].
  apply (props_alone_keep_chosen_tab st ps);
    [apply reachable_step, reachable_mount|reflexivity].
Defined.

(** ** The load request *)

(** X13. Whatever event leads to it, a [loadReactors] call carries the chat
    and message ids of the props the component is rendered with. *)
Theorem load_request_carries_props_ids
    (e : Event) (st : State) (chat : option string) (message : option Z) :
  LoadReactors chat message ∈ (step e st).2 →
  chat = chatId (step e st).1.1 ∧ message = messageId (step e st).1.1.
Proof.
  destruct st as [p h]. rewrite step_unfold. cbn [fst snd].
  rewrite elem_of_app. intros [Hin|Hin].
  - destruct h as [closing tab ref pending ldeps gdeps].
    destruct e; unfold_hooks; simpl in *;
      try (by apply elem_of_nil in Hin).
    + destruct (sourceExhausted p), pending; simpl in *;
        set_solver.
    + destruct ref as [id|]; [destruct (truthy (Some id))|]; simpl in *;
        set_solver.
  - unfold committedCalls in Hin.
    destruct (getMoreDue _ _ && hasMore _); [|by apply elem_of_nil in Hin].
    destruct (pendingFetch _); set_solver.
Qed.

Lemma load_request_carries_props_ids_scenario :
  let st := (step FetchSettled
               (mount (sessionProps true (Some firstPage))).1).1 in
  let e := PropsChanged (mkProps true None None (Some "c2") (Some 9) None) in
  LoadReactors (Some "c2") (Some 9) ∈ (step e st).2
  ∧ Some "c2" = chatId (step e st).1.1
  ∧ Some 9 = messageId (step e st).1.1.
Proof.
  intros st e.
  assert (Hin : LoadReactors (Some "c2") (Some 9) ∈ (step e st).2).
  { apply (bool_decide_unpack _). vm_compute. exact I. }
  split; [exact Hin|].
  exact (load_request_carries_props_ids e st (Some "c2") (Some 9) Hin).
Defined.

(** ** The props taken from the store *)

Section StoreFacts.
Variable selectChatMessage : string → Z → option ApiMessage.

(** X14. Whatever reactors, aggregate counts or seen ids the component is
    handed belong to the message its [chatId] and [messageId] props name:
    both ids are set and truthy and the message selected for them carries
    exactly these data. *)
Theorem props_data_belong_to_named_message
    (reactorModal : option ReactorModal) (ownIsOpen : bool) :
  let p := mapStateToProps selectChatMessage reactorModal ownIsOpen in
  p_reactors p ≠ None ∨ p_reactions p ≠ None ∨ seenByUserIds p ≠ None →
  ∃ chat number message,
    chatId p = Some chat ∧ messageId p = Some number
    ∧ chat ≠ "" ∧ number ≠ 0
    ∧ selectChatMessage chat number = Some message
    ∧ p_reactors p = m_reactors message
    ∧ p_reactions p = m_reactions message
    ∧ seenByUserIds p = m_seenByUserIds message.
Proof.
  intros p. subst p. unfold mapStateToProps. simpl.
  destruct (reactorModal ≫= rm_chatId) as [chat|];
    [|by intros [?|[?|?]]].
  destruct (reactorModal ≫= rm_messageId) as [number|];
    [|by intros [?|[?|?]]].
  destruct (truthy (Some chat)) eqn:Hchat; [|by intros [?|[?|?]]].
  destruct (truthyNumber (Some number)) eqn:Hnumber; [|by intros [?|[?|?]]].
  simpl. destruct (selectChatMessage chat number) as [message|] eqn:Hsel;
    [|by intros [?|[?|?]]].
  intros _. exists chat, number, message. simpl in *.
  repeat split; try done.
  - intros ->. done.
  - intros ->. done.
Qed.

(** X15. When the store names no message, or names it with an empty chat
    id or with message id 0, the component gets no data: no filter button
    is rendered and [userIds] has no id, whatever tab is chosen. *)
Theorem falsy_ids_give_no_data
    (reactorModal : option ReactorModal) (ownIsOpen : bool) :
  let p := mapStateToProps selectChatMessage reactorModal ownIsOpen in
  truthy (chatId p) && truthyNumber (messageId p) = false →
  p_reactors p = None ∧ p_reactions p = None ∧ seenByUserIds p = None
  ∧ (∀ h, filterButtons p h = [])
  ∧ (∀ tab, default [] (userIds tab (p_reactors p) (seenByUserIds p)) = []).
Proof.
  intros p Hfalsy.
  assert (Hdata : p_reactors p = None ∧ p_reactions p = None
                  ∧ seenByUserIds p = None).
  { subst p. unfold mapStateToProps in *. simpl in *.
    destruct (reactorModal ≫= rm_chatId) as [chat|]; [|done].
    destruct (reactorModal ≫= rm_messageId) as [number|]; [|done].
    by rewrite Hfalsy. }
  destruct Hdata as (Hr & Ha & Hs). repeat split; try done.
  - intros h. unfold filterButtons. by rewrite Hr.
  - intros tab. rewrite Hr. unfold userIds. by destruct (truthy tab).
Qed.
End StoreFacts.

Lemma props_data_belong_to_named_message_scenario :
  let select := λ (chat : string) (number : Z),
    if bool_decide (chat = "c1" ∧ number = 42)
    then Some (mkMessage (Some firstPage) None (Some [U3])) else None in
  let p := mapStateToProps select
             (Some (mkReactorModal (Some "c1") (Some 42))) true in
  (p_reactors p ≠ None ∨ p_reactions p ≠ None ∨ seenByUserIds p ≠ None)
  ∧ ∃ chat number message,
      chatId p = Some chat ∧ messageId p = Some number
      ∧ chat ≠ "" ∧ number ≠ 0
      ∧ select chat number = Some message
      ∧ p_reactors p = m_reactors message
      ∧ p_reactions p = m_reactions message
      ∧ seenByUserIds p = m_seenByUserIds message.
Proof.
  intros select p.
  assert (Hdata : p_reactors p ≠ None ∨ p_reactions p ≠ None
                  ∨ seenByUserIds p ≠ None) by (left; discriminate).
  split; [exact Hdata|].
  exact (props_data_belong_to_named_message select
           (Some (mkReactorModal (Some "c1") (Some 42))) true Hdata).
Defined.

Lemma falsy_ids_give_no_data_scenario :
  let select := λ (chat : string) (number : Z),
    Some (mkMessage (Some firstPage) None (Some [U3])) in
  let p := mapStateToProps select
             (Some (mkReactorModal (Some "c1") (Some 0))) true in
  truthy (chatId p) && truthyNumber (messageId p) = false
  ∧ p_reactors p = None ∧ p_reactions p = None ∧ seenByUserIds p = None
  ∧ (∀ h, filterButtons p h = [])
  ∧ (∀ tab, default [] (userIds tab (p_reactors p) (seenByUserIds p)) = []).
Proof.
  intros select p.
  assert (Hfalsy : truthy (chatId p) && truthyNumber (messageId p) = false)
    by reflexivity.
  split; [exact Hfalsy|].
  exact (falsy_ids_give_no_data select
           (Some (mkReactorModal (Some "c1") (Some 0))) true Hfalsy).
Defined.

(** ** More entries *)

(** X16. When entries are appended to the ones held, the unfiltered list
    is the ids of the earlier entries in their order, then the ids of the
    new reactors, then the seen-only ids that none of the entries carries:
    a seen-only id keeps its place among the seen-only ids unless a new
    entry makes it a reactor, in which case it moves forward.  Without seen
    ids the earlier list is a prefix of the later one, and with a chosen tab
    the earlier filtered list always is. *)
Theorem appended_entries_keep_earlier_ids_in_front
    (r r' : ApiReactors) (more : list ApiUserReaction)
    (seen seen' : option (list string)) :
  reactions r' = reactions r ++ more →
  let earlier := userId <$> reactions r in
  let added := userId <$> more in
  (∃ ids ids',
     userIds None (Some r) seen = Some ids
     ∧ userIds None (Some r') seen' = Some ids'
     ∧ ids
       = unique earlier
         ++ filter (λ u, u ∉ earlier) (unique (default [] seen))
     ∧ ids'
       = unique earlier
         ++ filter (λ u, u ∉ earlier) (unique added)
         ++ filter (λ u, u ∉ added)
              (filter (λ u, u ∉ earlier) (unique (default [] seen')))
     ∧ (default [] seen = [] → ids `prefix_of` ids'))
  ∧ ∀ tab, truthy (Some tab) = true →
      ∃ ids ids',
        userIds (Some tab) (Some r) seen = Some ids
        ∧ userIds (Some tab) (Some r') seen' = Some ids'
        ∧ ids `prefix_of` ids'.
Proof.
  intros Hmore earlier added. subst earlier added. split.
  - eexists _, _. split; [reflexivity|]. split; [reflexivity|].
    assert (Hlater : unique ((userId <$> reactions r') ++ default [] seen')
      = unique (userId <$> reactions r)
        ++ filter (λ u, u ∉ (userId <$> reactions r)) (unique (userId <$> more))
        ++ filter (λ u, u ∉ (userId <$> more))
             (filter (λ u, u ∉ (userId <$> reactions r))
                (unique (default [] seen')))).
    { rewrite Hmore, fmap_app.
      rewrite (unique_app ((userId <$> reactions r) ++ (userId <$> more))).
      rewrite (unique_app (userId <$> reactions r)).
      rewrite <- app_assoc. do 2 f_equal.
      rewrite list_filter_filter. apply list_filter_iff.
      intros u. rewrite elem_of_app. tauto. }
    split; [apply unique_app|]. split; [exact Hlater|].
    intros Hseen. rewrite Hlater, Hseen, app_nil_r. by apply prefix_app_r.
  - intros tab Hset. eexists _, _.
    split; [by apply userIds_filtered|]. split; [by apply userIds_filtered|].
    rewrite Hmore, filter_app, fmap_app. by apply prefix_app_r.
Qed.

Lemma appended_entries_keep_earlier_ids_in_front_scenario :
  reactions scenarioReactors
  = reactions (mkReactors 3 [mkUserReaction U1 heart] (Some "page2"))
    ++ [mkUserReaction U2 thumbsUp; mkUserReaction U1 thumbsUp]
  ∧ ∃ ids ids',
      userIds None (Some (mkReactors 3 [mkUserReaction U1 heart]
                            (Some "page2"))) (Some [U3; U2]) = Some ids
      ∧ userIds None (Some scenarioReactors) (Some [U3; U2]) = Some ids'
      ∧ ids = [U1; U3; U2]
      ∧ ids' = [U1; U2; U3].
Proof.
  assert (Hmore : reactions scenarioReactors
    = reactions (mkReactors 3 [mkUserReaction U1 heart] (Some "page2"))
      ++ [mkUserReaction U2 thumbsUp; mkUserReaction U1 thumbsUp])
    by reflexivity.
  split; [exact Hmore|].
  destruct (appended_entries_keep_earlier_ids_in_front _ scenarioReactors _
              (Some [U3; U2]) (Some [U3; U2]) Hmore)
    as [(ids & ids' & Hids & Hids' & Hearlier & Hlater & _) _].
  exists ids, ids'. split; [exact Hids|]. split; [exact Hids'|].
  split; [rewrite Hearlier|rewrite Hlater]; reflexivity.
Defined.

(** ** The number on a reaction button *)

(** X17. A reaction button shows a number exactly when the aggregate counts
    list its reaction, and the number is then the count of the first
    aggregate entry of that reaction. *)
Theorem button_number_from_first_aggregate
    (reactions : option ApiReactions) (kind : string) :
  (aggregateCount reactions kind = None ↔ kind ∉ aggregateKinds reactions)
  ∧ ∀ n, aggregateCount reactions kind = Some n →
      ∃ before after,
        default [] (results <$> reactions)
        = before ++ mkReactionCount kind n :: after
        ∧ kind ∉ (rc_reaction <$> before).
Proof.
  unfold aggregateCount, aggregateKinds.
  destruct reactions as [a|]; simpl;
    [|split; [split; [intros _; apply not_elem_of_nil|done]|done]].
  destruct (list_find _ (results a)) as [[i found]|] eqn:Hfind.
  - apply list_find_Some in Hfind as (Hi & Hkind & Hbefore).
    split.
    + split; [done|]. intros Hnot. exfalso. apply Hnot.
      apply list_elem_of_fmap. exists found. split; [done|].
      by eapply list_elem_of_lookup_2.
    + intros n [= <-]. exists (take i (results a)), (drop (S i) (results a)).
      split.
      * rewrite <- Hkind. destruct found as [k c]. simpl.
        by rewrite take_drop_middle.
      * intros (l & Hl & Hin)%list_elem_of_fmap.
        apply list_elem_of_lookup in Hin as [j Hj].
        pose proof (lookup_lt_Some _ _ _ Hj) as Hlt.
        rewrite length_take in Hlt.
        rewrite lookup_take_lt in Hj by lia.
        apply (Hbefore j l); [done|lia|done].
  - apply list_find_None in Hfind. split; [|done].
    split; [|done]. intros _ (l & Hl & Hin)%list_elem_of_fmap.
    rewrite Forall_forall in Hfind. by apply (Hfind l).
Qed.
